(** * pushoverutil/queue.py: the message-coalescing queue

    A shallow embedding of [src/pushoverutil/queue.py] and the properties of
    its debounce / deduplication logic.

    The module is Python, so three things that a typed language settles
    statically are part of the behaviour here and are modelled explicitly:
    - global names are looked up in the module namespace when a function body
      runs ([resolve]); an unbound name raises [NameError];
    - attributes are looked up on the instance when read ([Sender_getattr]);
      a missing one raises [AttributeError];
    - a later top-level binding of a name replaces an earlier one.

    Each [Sender] is a thread.  Its [run] method is given as the atomic steps
    the thread performs ([run_step]); everything done while holding
    [self.lock] is one step. *)

From Stdlib Require Import ZArith Lia.
From stdpp Require Import base gmap strings list.

Local Open Scope string_scope.
Local Open Scope Z_scope.
Local Open Scope list_scope.
#[local] Set Warnings "-clear-no-such-hyp".

(** ** Python values, exceptions, results *)

Module Py.

Inductive exn : Type :=
| NameError (name : string)
| AttributeError (attr : string)
| TypeError (what : string).

(** The outcome of evaluating a call: a value, or a raised exception. *)
Inductive result (A : Type) : Type :=
| Return (a : A)
| Raise (e : exn).
Arguments Return {A} a.
Arguments Raise {A} e.

Inductive pyobj : Type :=
| PNone
| PBool (b : bool)
| PInt (z : Z)
| PStr (s : string)
| PStrList (l : list string)
| PLock
| PDict
| PModule (name : string)
| PImported (from name : string)   (* [from <from> import <name>] *)
| PFunction (name : string)        (* a [def] of this module *)
| PClass (name : string).          (* a [class] of this module *)

(** A namespace lists its bindings newest first, so that a rebinding hides
    the older one. *)
Definition Namespace : Type := list (string * pyobj).

Fixpoint resolve (g : Namespace) (name : string) : option pyobj :=
  match g with
  | [] => None
  | (n, v) :: older => if String.eqb n name then Some v else resolve older name
  end.

Definition bind (name : string) (v : pyobj) (g : Namespace) : Namespace :=
  (name, v) :: g.

(** Executing binding statements in program order. *)
Definition exec_bindings (stmts : list (string * pyobj)) : Namespace :=
  fold_left (fun g b => bind (fst b) (snd b) g) stmts [].

(** [if x:] *)
Definition truthy (v : pyobj) : bool :=
  match v with
  | PNone => false
  | PBool b => b
  | PInt z => negb (z =? 0)
  | PStr s => negb (String.eqb s "")
  | PStrList l => match l with [] => false | _ => true end
  | _ => true
  end.

(** [x - 1] on a value: defined on [int] (and [bool], which is an [int]). *)
Definition minus_one (v : pyobj) : result Z :=
  match v with
  | PInt z => Return (z - 1)
  | PBool b => Return ((if b then 1 else 0) - 1)
  | _ => Raise (TypeError "unsupported operand type(s) for -=")
  end.

(** Which object a name turned out to be bound to. *)
Definition is_module (name : string) (v : pyobj) : bool :=
  match v with PModule n => String.eqb n name | _ => false end.
Definition is_def (name : string) (v : pyobj) : bool :=
  match v with PFunction n => String.eqb n name | _ => false end.
Definition is_import (from name : string) (v : pyobj) : bool :=
  match v with
  | PImported f n => String.eqb f from && String.eqb n name
  | _ => false
  end.

End Py.
Import Py.

(** ** The module namespace *)

(** The top-level statements of queue.py that bind a name, in source order
    (the number is the source line).  Line 32, [# MAX_COUNTER = 15], is a
    comment and binds nothing; [threading] is never imported as a name:
    line 28 binds only [Thread] and [RLock]. *)
Definition toplevel_bindings : list (string * pyobj) :=
  [ ("datetime",      PModule "datetime")                  (* 19 *)
  ; ("functools",     PModule "functools")                 (* 20 *)
  ; ("http",          PModule "http")                      (* 21 *)
  ; ("os",            PModule "os")                        (* 22 *)
  ; ("time",          PModule "time")                      (* 23 *)
  ; ("urllib",        PModule "urllib")                    (* 24 *)
  ; ("defaultdict",   PImported "collections" "defaultdict") (* 26 *)
  ; ("Priority",      PImported "push" "Priority")         (* 27 *)
  ; ("Push",          PImported "push" "Push")             (* 27 *)
  ; ("Thread",        PImported "threading" "Thread")      (* 28 *)
  ; ("RLock",         PImported "threading" "RLock")       (* 28 *)
  ; ("Optional",      PImported "typing" "Optional")       (* 29 *)
  ; ("Deduplicate",   PFunction "Deduplicate")             (* 35 *)
  ; ("Sender",        PClass "Sender")                     (* 43 *)
  ; ("CLUSTER_DICT",  PDict)                               (* 78 *)
  ; ("Push",          PFunction "Push")                    (* 81 *)
  ; ("PushoverQueue", PClass "PushoverQueue")              (* 128 *)
  ].

(** The names the file binds, each as its statement would bind it: what the
    bodies of the module's functions find when they look a global name up.
    It is not what executing the file leaves behind: the header of line 43,
    [class Sender(threading.Thread)], reads the unbound name [threading]
    (as line 50 does) and stops the execution there, see [import_module].
    The namespaces in which every top-level statement runs are those that
    bind [threading] besides, such as [with_threading] and [with_counter]. *)
Definition module_globals : Namespace := exec_bindings toplevel_bindings.

(** The same namespace with the two names the file uses but never binds:
    [MAX_COUNTER] bound to [q] (line 32 without its comment mark gives
    [q = 15]) and [threading] bound to the module of that name. *)
Definition with_counter (q : Z) : Namespace :=
  bind "threading" (PModule "threading")
    (bind "MAX_COUNTER" (PInt q) module_globals).

(** The file's namespace with [threading] bound and nothing else added:
    [MAX_COUNTER] stays unbound. *)
Definition with_threading : Namespace :=
  bind "threading" (PModule "threading") module_globals.

(** ** Executing the file *)

(** A top-level statement, one per name it binds: its source line, the name
    and the object, and the global names that executing the statement itself
    evaluates.  A [def] evaluates its defaults and annotations, not its
    body; a [class] statement evaluates its bases and runs its body, whose
    [def]s do the same.  Only [class Sender] (its base, line 43) and
    [class PushoverQueue] (its base, line 128; the default of line 166; the
    annotations of lines 161-172) read global names.  The imports of lines
    19-29 are taken to succeed. *)
Record Stmt : Type := mkStmt {
  line   : nat;
  target : string;
  value  : pyobj;
  reads  : list string
}.

Definition toplevel_statements : list Stmt :=
  [ mkStmt 19 "datetime"      (PModule "datetime") []
  ; mkStmt 20 "functools"     (PModule "functools") []
  ; mkStmt 21 "http"          (PModule "http") []
  ; mkStmt 22 "os"            (PModule "os") []
  ; mkStmt 23 "time"          (PModule "time") []
  ; mkStmt 24 "urllib"        (PModule "urllib") []
  ; mkStmt 26 "defaultdict"   (PImported "collections" "defaultdict") []
  ; mkStmt 27 "Priority"      (PImported "push" "Priority") []
  ; mkStmt 27 "Push"          (PImported "push" "Push") []
  ; mkStmt 28 "Thread"        (PImported "threading" "Thread") []
  ; mkStmt 28 "RLock"         (PImported "threading" "RLock") []
  ; mkStmt 29 "Optional"      (PImported "typing" "Optional") []
  ; mkStmt 35 "Deduplicate"   (PFunction "Deduplicate") []
  ; mkStmt 43 "Sender"        (PClass "Sender") ["threading"]
  ; mkStmt 78 "CLUSTER_DICT"  PDict []
  ; mkStmt 81 "Push"          (PFunction "Push") []
  ; mkStmt 128 "PushoverQueue" (PClass "PushoverQueue")
      ["Thread"; "Priority"; "Optional"; "datetime"]
  ].

(** The first of [names] that [g] does not bind. *)
Fixpoint first_unbound (g : Namespace) (names : list string) : option string :=
  match names with
  | [] => None
  | n :: rest =>
      match resolve g n with
      | Some _ => first_unbound g rest
      | None => Some n
      end
  end.

(** Statements run in order; the first one that reads an unbound name
    raises [NameError], and nothing after it is executed. *)
Fixpoint exec_statements (g : Namespace) (stmts : list Stmt)
  : Namespace * result unit :=
  match stmts with
  | [] => (g, Return tt)
  | st :: rest =>
      match first_unbound g (reads st) with
      | Some n => (g, Raise (NameError n))
      | None => exec_statements (bind (target st) (value st) g) rest
      end
  end.

(** Executing the file in a namespace that already holds [preset]
    ([[]] for a plain [import]). *)
Definition import_module (preset : Namespace) : Namespace * result unit :=
  exec_statements preset toplevel_statements.

(** ** [Deduplicate] and [str.join] *)

(** Lines 35-40.  The generator is consumed once, by [join]; the list is
    what it yields, in order.  [seen] is the [set] of line 36. *)
Fixpoint Deduplicate_from (seen : gset string) (items : list string)
  : list string :=
  match items with
  | [] => []
  | item :: rest =>
      if decide (item ∈ seen)
      then Deduplicate_from seen rest
      else item :: Deduplicate_from ({[ item ]} ∪ seen) rest
  end.

Definition Deduplicate (items : list string) : list string :=
  Deduplicate_from ∅ items.

Definition newline : string := String (Ascii.ascii_of_nat 10) EmptyString.

(** [sep.join(items)] *)
Fixpoint join (sep : string) (items : list string) : string :=
  match items with
  | [] => ""
  | x :: rest =>
      match rest with
      | [] => x
      | _ :: _ => x +:+ sep +:+ join sep rest
      end
  end.



(** ** The [Sender] thread (lines 43-75) *)

(** Where the thread of a [Sender] stands.  [is_alive()] holds from [start()]
    until [run] has returned or raised. *)
Inductive Phase : Type :=
| NotStarted                          (* constructed, [start()] not yet called *)
| Counting                            (* in the loop of lines 66-67 *)
| Flushing                            (* loop left, lines 70-72 not yet run *)
| Sending (full_message : string)     (* lock released, line 75 not yet run *)
| Finished (outcome : result unit).   (* [run] is over *)

Record Sender : Type := mkSender {
  messages : list string;   (* self.messages *)
  counter  : pyobj;         (* self.counter *)
  phase    : Phase
}.

Definition set_messages (l : list string) (s : Sender) : Sender :=
  mkSender l (counter s) (phase s).
Definition set_counter (c : pyobj) (s : Sender) : Sender :=
  mkSender (messages s) c (phase s).
Definition set_phase (p : Phase) (s : Sender) : Sender :=
  mkSender (messages s) (counter s) p.

Definition is_alive (s : Sender) : bool :=
  match phase s with
  | Counting | Flushing | Sending _ => true
  | NotStarted | Finished _ => false
  end.

(** What the module observably does: a flush computing its body (lines
    70-72), and a call that reaches the imported transport [push.Push]. *)
Inductive Event : Type :=
| EvFlush (entries : list string) (full_message : string)
| EvTransport (args : list pyobj) (kwargs : list (string * pyobj)).

(** [Sender.__init__], lines 44-50.  A constructor that raises hands no
    object to its caller. *)
Definition Sender_init (g : Namespace) (initial_messages : option (list string))
  : result Sender :=
  let msgs := match initial_messages with
              | Some (m :: l) => m :: l
              | _ => []
              end in
  match resolve g "MAX_COUNTER" with
  | None => Raise (NameError "MAX_COUNTER")
  | Some c =>
      match resolve g "threading" with
      | None => Raise (NameError "threading")
      | Some m =>
          if is_module "threading" m then Return (mkSender msgs c NotStarted)
          else Raise (AttributeError "Lock")
      end
  end.

(** [Thread.start()] *)
Definition start (s : Sender) : Sender := set_phase Counting s.

(** Lines 52-55.  The append of line 54 has happened when line 55 looks up
    [MAX_COUNTER]. *)
Definition EnqueueMessage (g : Namespace) (s : Sender) (message : string)
  : Sender * result unit :=
  let s1 := set_messages (messages s ++ [message]) s in
  match resolve g "MAX_COUNTER" with
  | None => (s1, Raise (NameError "MAX_COUNTER"))
  | Some c => (set_counter c s1, Return tt)
  end.

(** Lines 57-60. *)
Definition DecrementCounter (s : Sender) : Sender * result Z :=
  match minus_one (counter s) with
  | Return c => (set_counter (PInt c) s, Return c)
  | Raise e => (s, Raise e)
  end.

(** Instance attribute lookup: the attributes line 48-50 assign.  Neither
    [Sender] nor [threading.Thread] defines [secrets_json_path]. *)
Definition Sender_getattr (s : Sender) (attr : string) : option pyobj :=
  if String.eqb attr "messages" then Some (PStrList (messages s))
  else if String.eqb attr "counter" then Some (counter s)
  else if String.eqb attr "lock" then Some PLock
  else None.

(** The parameters of the module-level [Push], lines 81-85. *)
Definition Push_params : list string :=
  ["message"; "cluster_key"; "high_priority"].

(** Binding the keyword arguments of a call to a [def] of this module. *)
Definition check_keywords (params : list string) (kwargs : list (string * pyobj))
  : result unit :=
  match List.find (fun kw => negb (bool_decide (fst kw ∈ params))) kwargs with
  | Some kw => Raise (TypeError ("unexpected keyword argument " +:+ fst kw))
  | None => Return tt
  end.

(** Line 75, [Push(full_message, secrets_json_path=self.secrets_json_path)]:
    the callee is looked up first, then the arguments are evaluated left to
    right, then the call is made. *)
Definition send (g : Namespace) (s : Sender) (full_message : string)
  : list Event * result unit :=
  match resolve g "Push" with
  | None => ([], Raise (NameError "Push"))
  | Some callee =>
      match Sender_getattr s "secrets_json_path" with
      | None => ([], Raise (AttributeError "secrets_json_path"))
      | Some path =>
          let kwargs := [("secrets_json_path", path)] in
          if is_def "Push" callee then
            match check_keywords Push_params kwargs with
            | Raise e => ([], Raise e)
            | Return _ => ([], Return tt)   (* [cluster_key] is [None] *)
            end
          else if is_import "push" "Push" callee then
            ([EvTransport [PStr full_message] kwargs], Return tt)
          else ([], Raise (TypeError "object is not callable"))
      end
  end.

(** [run], lines 62-75, one atomic step of the thread at a time. *)
Definition run_step (g : Namespace) (s : Sender) : Sender * list Event :=
  match phase s with
  | Counting =>
      match DecrementCounter s with
      | (s1, Return c) =>
          if c >? 0 then (s1, [])                 (* time.sleep(1.0) *)
          else (set_phase Flushing s1, [])
      | (s1, Raise e) => (set_phase (Finished (Raise e)) s1, [])
      end
  | Flushing =>
      let entries := Deduplicate (messages s) in
      let full_message := join newline entries in
      (set_phase (Sending full_message) (set_messages [] s),
       [EvFlush entries full_message])
  | Sending full_message =>
      let (evs, outcome) := send g s full_message in
      (set_phase (Finished outcome) s, evs)
  | NotStarted | Finished _ => (s, [])
  end.

(** [n] steps of one thread running undisturbed. *)
Fixpoint run (g : Namespace) (n : nat) (s : Sender) : Sender * list Event :=
  match n with
  | O => (s, [])
  | S n' =>
      let (s1, e1) := run_step g s in
      let (s2, e2) := run g n' s1 in
      (s2, e1 ++ e2)
  end.

(** ** The registry and the module-level [Push] (lines 78-102) *)

(** The state shared by the callers of [Push] and the [Sender] threads:
    the dict [CLUSTER_DICT] (line 78), the [Sender] objects ever created
    (an object is named by its position in [heap]; [CLUSTER_DICT] holds
    references), and the events observed so far. *)
Record World : Type := mkWorld {
  CLUSTER_DICT : gmap string nat;
  heap         : list Sender;
  log          : list Event
}.

Definition empty_world : World := mkWorld ∅ [] [].

(** Reading a global name that the body needs as an object. *)
Definition global (g : Namespace) (name : string) : result pyobj :=
  match resolve g name with
  | Some v => Return v
  | None => Raise (NameError name)
  end.

(** Lines 90 and 94: the registered sender of [key], when it is alive. *)
Definition live_sender (w : World) (key : string) : option (nat * Sender) :=
  match CLUSTER_DICT w !! key with
  | None => None
  | Some i =>
      match heap w !! i with
      | Some sender => if is_alive sender then Some (i, sender) else None
      | None => None
      end
  end.

(** Lines 81-102.  Nothing follows the [if] of line 88: lines 104-121 are
    comments.  [high_priority] is read nowhere. *)
Definition Push (g : Namespace) (w : World)
    (message : string) (cluster_key : option string) (high_priority : pyobj)
  : World * result unit :=
  match cluster_key with
  | None => (w, Return tt)
  | Some key =>
      if negb (truthy (PStr key)) then (w, Return tt)
      else
        match global g "CLUSTER_DICT" with
        | Raise e => (w, Raise e)
        | Return _ =>
            match live_sender w key with
            | Some (i, sender) =>
                let (sender', r) := EnqueueMessage g sender message in
                (mkWorld (CLUSTER_DICT w) (<[ i := sender' ]> (heap w)) (log w), r)
            | None =>
                match global g "Sender" with
                | Raise e => (w, Raise e)
                | Return _ =>
                    match Sender_init g (Some [message]) with
                    | Raise e => (w, Raise e)
                    | Return new_sender =>
                        (mkWorld (<[ key := length (heap w) ]> (CLUSTER_DICT w))
                                 (heap w ++ [start new_sender])
                                 (log w),
                         Return tt)
                    end
                end
            end
        end
  end.

(** ** [PushoverQueue.Push] (lines 158-175) *)

Module PushoverQueue.

Record t : Type := mk {
  user_key   : string;
  api_token  : string;
  rate_limit : Z;
  running    : bool
}.

(** Lines 130-139. *)
Definition init (user_key api_token : string) (rate_limit : Z) : t :=
  mk user_key api_token rate_limit false.

(** The keyword parameters of lines 161-172, with their defaults. *)
Record Options : Type := mkOptions {
  callback       : pyobj;
  clustering_key : option string;
  devices        : pyobj;
  expire         : pyobj;
  html           : pyobj;
  priority       : pyobj;
  retry          : pyobj;
  timestamp      : pyobj;
  title          : pyobj;
  ttl            : pyobj;
  url_title      : pyobj;
  url            : pyobj
}.

Definition defaults : Options :=
  mkOptions PNone None PNone PNone (PBool false)
            (PImported "push" "Priority.NORMAL")
            PNone PNone PNone PNone PNone PNone.

(** Line 175, [Push(self.user_key, self.api_token, message)]: three
    positional arguments to whatever the global name [Push] is bound to. *)
Definition Push (g : Namespace) (w : World) (self : t)
    (message : string) (opts : Options) : World * result unit :=
  match global g "Push" with
  | Raise e => (w, Raise e)
  | Return callee =>
      if is_def "Push" callee then
        Push g w (user_key self) (Some (api_token self)) (PStr message)
      else if is_import "push" "Push" callee then
        (mkWorld (CLUSTER_DICT w) (heap w)
           (log w ++ [EvTransport [PStr (user_key self); PStr (api_token self);
                                   PStr message] []]),
         Return tt)
      else (w, Raise (TypeError "object is not callable"))
  end.

End PushoverQueue.

(** ** Interleavings *)

(** What can happen next in the process: the thread of sender [i] performs
    its next atomic step, or some caller runs [Push]. *)
Inductive Action : Type :=
| Tick (i : nat)
| CallPush (message : string) (cluster_key : option string).

Definition act (g : Namespace) (w : World) (a : Action) : World :=
  match a with
  | Tick i =>
      match heap w !! i with
      | Some s =>
          let (s', evs) := run_step g s in
          mkWorld (CLUSTER_DICT w) (<[ i := s' ]> (heap w)) (log w ++ evs)
      | None => w
      end
  | CallPush message cluster_key =>
      fst (Push g w message cluster_key (PBool false))
  end.

Definition exec (g : Namespace) (w : World) (actions : list Action) : World :=
  fold_left (act g) actions w.

(** The bodies that some flush has taken into its snapshot. *)
Fixpoint flushed (evs : list Event) : list string :=
  match evs with
  | [] => []
  | EvFlush entries _ :: rest => (entries ++ flushed rest)
  | EvTransport _ _ :: rest => flushed rest
  end.

(** The calls that reached the transport. *)
Fixpoint transport_calls (evs : list Event) : list Event :=
  match evs with
  | [] => []
  | EvTransport a k :: rest => EvTransport a k :: transport_calls rest
  | EvFlush _ _ :: rest => transport_calls rest
  end.


(** ** One sender, driven by its thread and by enqueues *)

Inductive Op : Type :=
| OpEnqueue (message : string)   (* a caller runs [EnqueueMessage] *)
| OpTick.                        (* the thread performs its next step *)

Definition apply_op (g : Namespace) (s : Sender) (op : Op) : Sender :=
  match op with
  | OpEnqueue message => fst (EnqueueMessage g s message)
  | OpTick => fst (run_step g s)
  end.

Definition drive (g : Namespace) (s : Sender) (ops : list Op) : Sender :=
  fold_left (apply_op g) ops s.

Fixpoint enqueued (ops : list Op) : list string :=
  match ops with
  | [] => []
  | OpEnqueue message :: rest => message :: enqueued rest
  | OpTick :: rest => enqueued rest
  end.

(** The snapshot of lines 70-72 has not been taken yet. *)
Definition before_snapshot (s : Sender) : bool :=
  match phase s with
  | NotStarted | Counting | Flushing => true
  | Sending _ | Finished _ => false
  end.

(** One enqueue per tick. *)
Definition enqueue_each_tick (bodies : list string) : list Op :=
  flat_map (fun m => [OpEnqueue m; OpTick]) bodies.

(** No sender that still awaits its snapshot holds [b]. *)
Definition stranded (b : string) (w : World) : Prop :=
  ∀ j s, heap w !! j = Some s → b ∈ messages s → before_snapshot s = false.

(** Whether an action pushes the body [b]. *)
Definition pushes (b : string) (a : Action) : bool :=
  match a with
  | CallPush message _ => String.eqb message b
  | Tick _ => false
  end.

(** The registry names each sender once, and only senders that exist. *)
Definition registry_ok (w : World) : Prop :=
  (∀ k i, CLUSTER_DICT w !! k = Some i → (i < length (heap w))%nat)
  ∧ (∀ k k' i, CLUSTER_DICT w !! k = Some i → CLUSTER_DICT w !! k' = Some i →
               k = k').

(** ** The [PushoverQueue] thread (lines 128-156) *)

Module QueueThread.

(** A [threading.Thread] object is started at most once; it is alive from
    [start()] until [run] returns. *)
Inductive Life : Type := Unstarted | Alive | Ended.

(** The object: the attributes of lines 133-139 ([self.queue] is the
    [defaultdict(list)] of line 139) and the state of its thread. *)
Record t : Type := mk {
  self  : PushoverQueue.t;
  queue : gmap string (list string);
  life  : Life
}.

Definition set_running (b : bool) (q : PushoverQueue.t) : PushoverQueue.t :=
  PushoverQueue.mk (PushoverQueue.user_key q) (PushoverQueue.api_token q)
                   (PushoverQueue.rate_limit q) b.

(** [PushoverQueue(user_key, api_token, rate_limit)], lines 130-139. *)
Definition new (user_key api_token : string) (rate_limit : Z) : t :=
  mk (PushoverQueue.init user_key api_token rate_limit) ∅ Unstarted.

Inductive outcome : Type :=
| Returned
| RuntimeError (what : string).

(** [Thread.start()] *)
Definition Thread_start (o : t) : t * outcome :=
  match life o with
  | Unstarted => (mk (self o) (queue o) Alive, Returned)
  | Alive | Ended => (o, RuntimeError "threads can only be started once")
  end.

(** Lines 141-144: the flag is set before the thread is started. *)
Definition Start (o : t) : t * outcome :=
  Thread_start (mk (set_running true (self o)) (queue o) (life o)).

(** Lines 146-148. *)
Definition Stop (o : t) : t :=
  mk (set_running false (self o)) (queue o) (life o).

(** Lines 150-152. *)
Definition IsRunning (o : t) : bool := PushoverQueue.running (self o).

(** Lines 154-156: one test of the loop condition by the thread; the loop
    body is [pass]. *)
Definition run_step (o : t) : t :=
  match life o with
  | Alive => if IsRunning o then o else mk (self o) (queue o) Ended
  | Unstarted | Ended => o
  end.

Definition run_steps (n : nat) (o : t) : t := Nat.iter n run_step o.

End QueueThread.

(** * Properties *)

(** ** [Deduplicate] *)

Lemma Deduplicate_from_elem seen items x :
  x ∈ Deduplicate_from seen items ↔ x ∈ items ∧ x ∉ seen.
Proof.
  revert seen. induction items as [|y l IH]; intros seen; simpl.
  - split; [intros H; inversion H | intros [H _]; inversion H].
  - destruct (decide (y ∈ seen)) as [Hy|Hy].
    + rewrite IH, elem_of_cons. split.
      * intros [? ?]; auto.
      * intros [[->|?] ?]; [contradiction | auto].
    + rewrite !elem_of_cons, IH. split.
      * intros [->|[? Hn]]; [auto|]. split; [auto|set_solver].
      * intros [[->|Hx] Hn]; [auto|].
        destruct (decide (x = y)) as [->|Hne]; [auto|].
        right. split; [done|set_solver].
Qed.

Lemma Deduplicate_from_NoDup seen items : NoDup (Deduplicate_from seen items).
Proof.
  revert seen. induction items as [|y l IH]; intros seen; simpl.
  - constructor.
  - destruct (decide (y ∈ seen)); [apply IH|].
    constructor; [|apply IH].
    rewrite Deduplicate_from_elem. set_solver.
Qed.



(** A body that is already in the list, or already seen, adds nothing to
    what [Deduplicate] yields. *)
Lemma Deduplicate_from_snoc_old seen items x :
  x ∈ items ∨ x ∈ seen →
  Deduplicate_from seen (items ++ [x]) = Deduplicate_from seen items.
Proof.
  revert seen. induction items as [|y l IH]; intros seen H; simpl.
  - destruct H as [H|H]; [inversion H|].
    destruct (decide (x ∈ seen)); [done|contradiction].
  - destruct (decide (y ∈ seen)).
    + apply IH. destruct H as [H|H]; [|auto].
      apply elem_of_cons in H as [->|H]; auto.
    + f_equal. apply IH. destruct H as [H|H]; [|set_solver].
      apply elem_of_cons in H as [->|H]; [set_solver|auto].
Qed.

Lemma Deduplicate_from_snoc_new seen items x :
  x ∉ items → x ∉ seen →
  Deduplicate_from seen (items ++ [x]) = Deduplicate_from seen items ++ [x].
Proof.
  revert seen. induction items as [|y l IH]; intros seen Hl Hs; simpl.
  - destruct (decide (x ∈ seen)); [contradiction|done].
  - apply not_elem_of_cons in Hl as [Hne Hl].
    destruct (decide (y ∈ seen)); [by apply IH|].
    simpl. f_equal. apply IH; [done|set_solver].
Qed.

(** ** The methods of [Sender] *)

Lemma EnqueueMessage_messages g s message :
  messages (fst (EnqueueMessage g s message)) = messages s ++ [message].
Proof. unfold EnqueueMessage. destruct (resolve g "MAX_COUNTER"); reflexivity. Qed.

Lemma EnqueueMessage_phase g s message :
  phase (fst (EnqueueMessage g s message)) = phase s.
Proof. unfold EnqueueMessage. destruct (resolve g "MAX_COUNTER"); reflexivity. Qed.

Lemma DecrementCounter_keeps s :
  messages (fst (DecrementCounter s)) = messages s
  ∧ phase (fst (DecrementCounter s)) = phase s.
Proof. unfold DecrementCounter. destruct (minus_one (counter s)); auto. Qed.

(** Once the snapshot is taken the thread never returns before it. *)
Lemma apply_op_after_snapshot g s op :
  before_snapshot s = false → before_snapshot (apply_op g s op) = false.
Proof.
  unfold before_snapshot. destruct op as [m|]; simpl.
  - by rewrite EnqueueMessage_phase.
  - unfold run_step. destruct (phase s) eqn:E; try discriminate; intros _.
    + destruct (send g s full_message). simpl. reflexivity.
    + simpl. by rewrite E.
Qed.

Lemma drive_after_snapshot g s ops :
  before_snapshot s = false → before_snapshot (drive g s ops) = false.
Proof.
  revert s. induction ops as [|op ops IH]; intros s H; [done|].
  simpl. apply IH. by apply apply_op_after_snapshot.
Qed.

(** Until the snapshot, every enqueued body is appended and nothing else
    touches the list. *)
Lemma apply_op_messages g s op :
  before_snapshot (apply_op g s op) = true →
  messages (apply_op g s op) = messages s ++ enqueued [op].
Proof.
  destruct op as [m|]; simpl.
  - intros _. apply EnqueueMessage_messages.
  - rewrite app_nil_r. unfold before_snapshot, run_step.
    destruct (phase s) eqn:E; simpl; try discriminate; try done.
    + pose proof (DecrementCounter_keeps s) as [Hm Hp].
      destruct (DecrementCounter s) as [s1 [c|e]]; simpl in *.
      * destruct (c >? 0); simpl; done.
      * discriminate.
    + destruct (send g s full_message). simpl. discriminate.
Qed.

Lemma enqueued_app ops1 ops2 :
  enqueued (ops1 ++ ops2) = enqueued ops1 ++ enqueued ops2.
Proof.
  induction ops1 as [|[m|] ops1 IH]; simpl; [done| by rewrite IH | done].
Qed.

Lemma drive_messages g s ops :
  before_snapshot (drive g s ops) = true →
  messages (drive g s ops) = messages s ++ enqueued ops.
Proof.
  revert s. induction ops as [|op ops IH]; intros s H.
  - simpl. by rewrite app_nil_r.
  - simpl in H. change (drive g s (op :: ops)) with (drive g (apply_op g s op) ops).
    rewrite (IH _ H).
    destruct (before_snapshot (apply_op g s op)) eqn:E.
    + rewrite (apply_op_messages _ _ _ E).
      change (op :: ops) with ([op] ++ ops).
      by rewrite enqueued_app, app_assoc.
    + apply (drive_after_snapshot g _ ops) in E.
      unfold drive in E, H. rewrite E in H. discriminate.
Qed.



(** ** The countdown *)

(** The two names the bodies read and no statement binds. *)
Lemma unbound_names :
  resolve module_globals "MAX_COUNTER" = None
  ∧ resolve module_globals "threading" = None.
Proof. split; reflexivity. Qed.

Lemma EnqueueMessage_bound g s message c :
  resolve g "MAX_COUNTER" = Some c →
  EnqueueMessage g s message
  = (mkSender (messages s ++ [message]) c (phase s), Return tt).
Proof. intros H. unfold EnqueueMessage. by rewrite H. Qed.

Lemma EnqueueMessage_unbound g s message :
  resolve g "MAX_COUNTER" = None →
  EnqueueMessage g s message
  = (mkSender (messages s ++ [message]) (counter s) (phase s),
     Raise (NameError "MAX_COUNTER")).
Proof. intros H. unfold EnqueueMessage. by rewrite H. Qed.

Lemma run_step_counting g s c :
  phase s = Counting → counter s = PInt c →
  run_step g s
  = (mkSender (messages s) (PInt (c - 1))
       (if c - 1 >? 0 then Counting else Flushing), []).
Proof.
  destruct s as [ms ct ph]. simpl. intros -> ->.
  unfold run_step, DecrementCounter. simpl.
  destruct (c - 1 >? 0); reflexivity.
Qed.

(** [k] undisturbed ticks of a counting sender whose countdown is above [k]
    leave it counting, with the countdown lowered by [k]. *)
Lemma quiet_ticks_counting g k : ∀ s c,
  phase s = Counting → counter s = PInt c → Z.of_nat k < c →
  drive g s (repeat OpTick k)
  = mkSender (messages s) (PInt (c - Z.of_nat k)) Counting.
Proof.
  induction k as [|k IH]; intros s c Hp Hc Hk.
  - simpl. destruct s; simpl in *. subst. f_equal. f_equal. lia.
  - change (drive g s (repeat OpTick (S k)))
      with (drive g (fst (run_step g s)) (repeat OpTick k)).
    rewrite (run_step_counting g s c Hp Hc). simpl fst.
    assert ((c - 1 >? 0) = true) as -> by lia.
    rewrite (IH _ (c - 1)); simpl; [|done|done|lia].
    f_equal. f_equal. lia.
Qed.

(** The loop is left exactly at the [c]-th undisturbed tick. *)
Lemma quiet_ticks_expire g s c :
  phase s = Counting → counter s = PInt c → 1 ≤ c →
  drive g s (repeat OpTick (Z.to_nat c))
  = mkSender (messages s) (PInt 0) Flushing.
Proof.
  intros Hp Hc Hpos.
  replace (Z.to_nat c) with (Z.to_nat (c - 1) + 1)%nat by lia.
  rewrite repeat_app. unfold drive. rewrite fold_left_app.
  fold (drive g s (repeat OpTick (Z.to_nat (c - 1)))).
  rewrite (quiet_ticks_counting g _ s c Hp Hc) by lia.
  simpl. unfold run_step, DecrementCounter. simpl.
  replace (c - Z.of_nat (Z.to_nat (c - 1)) - 1) with 0 by lia.
  reflexivity.
Qed.

(** With [MAX_COUNTER] bound to an integer [q > 1], enqueueing at every tick
    keeps the sender counting, for any number of ticks, and after the last
    enqueue the loop is left at the [q]-th quiet tick and not before. *)
Lemma debounce_when_bound g q s bodies last :
  resolve g "MAX_COUNTER" = Some (PInt q) → 1 < q →
  phase s = Counting →
  let s' := drive g s (enqueue_each_tick bodies ++ [OpEnqueue last]) in
  phase (drive g s (enqueue_each_tick bodies)) = Counting
  ∧ (∀ k, Z.of_nat k < q → phase (drive g s' (repeat OpTick k)) = Counting)
  ∧ phase (drive g s' (repeat OpTick (Z.to_nat q))) = Flushing.
Proof.
  intros Hq Hgt Hp. cbv zeta.
  assert (∀ bs s, phase s = Counting →
            phase (drive g s (enqueue_each_tick bs)) = Counting) as Hround.
  { induction bs as [|m bs IH]; intros s1 H1; [done|].
    simpl. apply IH.
    rewrite (EnqueueMessage_bound g s1 m _ Hq). simpl.
    erewrite run_step_counting; [|done|done]. simpl.
    by assert ((q - 1 >? 0) = true) as -> by lia. }
  split; [by apply Hround|].
  unfold drive at 2 4. rewrite fold_left_app. simpl.
  fold (drive g s (enqueue_each_tick bodies)).
  specialize (Hround bodies s Hp).
  rewrite (EnqueueMessage_bound g _ last _ Hq). simpl fst.
  set (s1 := mkSender _ _ _).
  split.
  - intros k Hk. fold (drive g s1 (repeat OpTick k)).
    by rewrite (quiet_ticks_counting g k s1 q).
  - fold (drive g s1 (repeat OpTick (Z.to_nat q))).
    rewrite (quiet_ticks_expire g s1 q); [done| |done|lia].
    subst s1. simpl. done.
Qed.

(** A sender that has left its loop does not come back to it. *)
Lemma apply_op_counting_before g s op :
  phase (apply_op g s op) = Counting → phase s = Counting.
Proof.
  destruct op as [m|]; simpl.
  - by rewrite EnqueueMessage_phase.
  - unfold run_step. destruct (phase s) eqn:E; try done;
      try destruct (send g s full_message);
      simpl; intros H; congruence.
Qed.

Lemma drive_counting_before g ops : ∀ s,
  phase (drive g s ops) = Counting → phase s = Counting.
Proof.
  induction ops as [|op ops IH]; intros s H; [done|].
  apply (apply_op_counting_before g s op), IH, H.
Qed.

Lemma enqueued_each_tick bodies : enqueued (enqueue_each_tick bodies) = bodies.
Proof. induction bodies as [|m l IH]; simpl; [done|by rewrite IH]. Qed.

(** C2.  Debounce reset.  Take a namespace in which [MAX_COUNTER] is bound
    to an integer [q] -- a timer exists in no other, its constructor reads
    the same name -- and a timer in its loop.  Enqueue on it at every tick
    for [n < q] ticks, enqueue once more, and let [q] ticks pass without an
    enqueue.  Each enqueue puts the countdown back to [q]; at no point
    before the last of the [q] quiet ticks has the timer left its loop, so
    no flush has occurred; at that tick it leaves the loop, and its next
    step is the flush of everything accumulated. *)
Theorem enqueue_rearms_countdown
    (g : Namespace) (q : Z) (s : Sender) (bodies : list string) (last : string) :
  resolve g "MAX_COUNTER" = Some (PInt q) →
  phase s = Counting →
  Z.of_nat (length bodies) < q →
  let ops := enqueue_each_tick bodies
             ++ OpEnqueue last :: repeat OpTick (Z.to_nat q) in
  let entries := Deduplicate (messages s ++ bodies ++ [last]) in
  (∀ s' m, counter (fst (EnqueueMessage g s' m)) = PInt q)
  ∧ (∀ k, (k < length ops)%nat → phase (drive g s (take k ops)) = Counting)
  ∧ phase (drive g s ops) = Flushing
  ∧ snd (run_step g (drive g s ops)) = [EvFlush entries (join newline entries)].
Proof.
  intros Hq Hp Hn. cbv zeta.
  assert (1 ≤ q) as Hq1 by lia.
  set (s1 := drive g s (enqueue_each_tick bodies)).
  assert (phase s1 = Counting) as Hp1.
  { destruct (Z_lt_le_dec 1 q) as [Hgt|Hle].
    - exact (proj1 (debounce_when_bound g q s bodies last Hq Hgt Hp)).
    - destruct bodies as [|m l]; [exact Hp|simpl in Hn; lia]. }
  assert (messages s1 = messages s ++ bodies) as Hm1.
  { unfold s1. rewrite drive_messages, enqueued_each_tick; [done|].
    unfold before_snapshot. fold s1. by rewrite Hp1. }
  set (s2 := mkSender (messages s ++ bodies ++ [last]) (PInt q) Counting).
  assert (∀ j, drive g s (enqueue_each_tick bodies
                           ++ OpEnqueue last :: repeat OpTick j)
               = drive g s2 (repeat OpTick j)) as Hsplit.
  { intros j. unfold drive. rewrite fold_left_app. simpl.
    fold (drive g s (enqueue_each_tick bodies)). fold s1.
    rewrite (EnqueueMessage_bound g s1 last _ Hq). simpl fst.
    by rewrite Hm1, Hp1, <- app_assoc. }
  assert (drive g s (enqueue_each_tick bodies
                     ++ OpEnqueue last :: repeat OpTick (Z.to_nat q))
          = mkSender (messages s ++ bodies ++ [last]) (PInt 0) Flushing) as Hend.
  { rewrite Hsplit. by rewrite (quiet_ticks_expire g s2 q). }
  split; [|split; [|split]].
  - intros s' m. by rewrite (EnqueueMessage_bound g s' m _ Hq).
  - intros k Hk.
    set (ops' := enqueue_each_tick bodies
                 ++ OpEnqueue last :: repeat OpTick (Z.to_nat (q - 1))).
    assert (phase (drive g s ops') = Counting) as Hc.
    { unfold ops'. rewrite Hsplit.
      by rewrite (quiet_ticks_counting g _ s2 q) by (done || lia). }
    assert (enqueue_each_tick bodies
            ++ OpEnqueue last :: repeat OpTick (Z.to_nat q)
            = ops' ++ [OpTick]) as Heq.
    { unfold ops'. replace (Z.to_nat q) with (S (Z.to_nat (q - 1))) by lia.
      rewrite <- app_assoc. simpl. f_equal. f_equal.
      apply (repeat_cons (Z.to_nat (q - 1)) OpTick). }
    rewrite Heq in Hk |- *. rewrite length_app in Hk. simpl in Hk.
    rewrite take_app_le by lia.
    apply (drive_counting_before g (drop k ops')).
    unfold drive. rewrite <- fold_left_app, take_drop. exact Hc.
  - by rewrite Hend.
  - by rewrite Hend.
Qed.

Lemma enqueue_rearms_countdown_witness :
  let s := mkSender ["a"] (PInt 3) Counting in
  let ops := enqueue_each_tick ["b"; "c"]
             ++ OpEnqueue "d" :: repeat OpTick 3 in
  phase (drive (with_counter 3) s ops) = Flushing
  ∧ phase (drive (with_counter 3) s (take 7 ops)) = Counting.
Proof.
  pose proof (enqueue_rearms_countdown (with_counter 3) 3
                (mkSender ["a"] (PInt 3) Counting) ["b"; "c"] "d"
                eq_refl eq_refl ltac:(simpl; lia)) as (_ & H2 & H3 & _).
  cbv zeta. split; [exact H3|exact (H2 7%nat ltac:(simpl; lia))].
Defined.

(** C9.  The quiet period constant: what the code does.  No statement of
    the module binds [MAX_COUNTER] (line 32 is a comment), so the
    constructor raises [NameError] at line 49 for every argument and no
    timer is constructed.  With the name bound to 15 (and [threading]
    bound) the constructor does initialise the countdown to 15. *)
Theorem MAX_COUNTER_is_unbound (initial_messages : option (list string)) :
  resolve module_globals "MAX_COUNTER" = None
  ∧ Sender_init module_globals initial_messages
    = Raise (NameError "MAX_COUNTER")
  ∧ ∃ msgs, Sender_init (with_counter 15) initial_messages
            = Return (mkSender msgs (PInt 15) NotStarted).
Proof.
  repeat split. destruct initial_messages as [[|m l]|]; eexists; reflexivity.
Qed.

(** C6, as stated, fails: enqueueing a body that is already in the list
    stores it a second time. *)
Lemma enqueue_present_body_changes_list :
  ¬ (∀ g s message,
       message ∈ messages s →
       messages (fst (EnqueueMessage g s message)) = messages s).
Proof.
  intros H.
  specialize (H module_globals (mkSender ["A"] (PInt 3) Counting) "A").
  simpl in H. discriminate H. set_solver.
Qed.

(** C6, amended.  Every enqueue appends the body to the list, present or
    not; the countdown is assigned the value of [MAX_COUNTER] where that
    name is bound; and a repeated body is collapsed only later, by
    [Deduplicate] at the flush: the repeat does not change what the flush
    will yield, a new body is yielded last. *)
Theorem enqueue_always_appends (g : Namespace) (s : Sender) (message : string) :
  let s' := fst (EnqueueMessage g s message) in
  messages s' = messages s ++ [message]
  ∧ phase s' = phase s
  ∧ match resolve g "MAX_COUNTER" with
    | Some c => counter s' = c ∧ snd (EnqueueMessage g s message) = Return tt
    | None => True
    end
  ∧ Deduplicate (messages s')
    = if decide (message ∈ messages s)
      then Deduplicate (messages s)
      else Deduplicate (messages s) ++ [message].
Proof.
  cbv zeta. rewrite EnqueueMessage_messages, EnqueueMessage_phase.
  repeat split.
  - unfold EnqueueMessage. destruct (resolve g "MAX_COUNTER"); simpl; auto.
  - unfold Deduplicate. destruct (decide (message ∈ messages s)).
    + apply Deduplicate_from_snoc_old. auto.
    + apply Deduplicate_from_snoc_new; [done|set_solver].
Qed.

(** ** The send step and the end of the thread *)

Lemma send_raises g s full_message :
  ∃ e, send g s full_message = ([], Raise e).
Proof.
  unfold send. destruct (resolve g "Push"); simpl; eauto.
Qed.

Lemma run_step_finished g s r : phase s = Finished r → run_step g s = (s, []).
Proof. intros H. unfold run_step. by rewrite H. Qed.

Lemma run_finished g n s r : phase s = Finished r → run g n s = (s, []).
Proof.
  intros H. induction n as [|n IH]; [done|].
  simpl. rewrite (run_step_finished g s r H), IH. reflexivity.
Qed.

Lemma transport_calls_app l1 l2 :
  transport_calls (l1 ++ l2) = transport_calls l1 ++ transport_calls l2.
Proof.
  induction l1 as [|[e m|a k] l1 IH]; simpl; [done|done|by rewrite IH].
Qed.

Lemma run_step_no_transport g s : transport_calls (snd (run_step g s)) = [].
Proof.
  unfold run_step. destruct (phase s); simpl; try done.
  - destruct (DecrementCounter s) as [s1 [c|e]]; [destruct (c >? 0)|]; done.
  - destruct (send_raises g s full_message) as [e ->]. done.
Qed.

Lemma run_no_transport g n : ∀ s, transport_calls (snd (run g n s)) = [].
Proof.
  induction n as [|n IH]; intros s; [done|].
  simpl. pose proof (run_step_no_transport g s) as H1.
  destruct (run_step g s) as [s1 e1]. specialize (IH s1).
  destruct (run g n s1) as [s2 e2]. simpl in *.
  by rewrite transport_calls_app, H1, IH.
Qed.

(** The flush and the send, from the moment the loop is left. *)
Lemma run_from_flushing g s :
  phase s = Flushing →
  ∃ e, run g 2 s
       = (mkSender [] (counter s) (Finished (Raise e)),
          [EvFlush (Deduplicate (messages s))
                   (join newline (Deduplicate (messages s)))]).
Proof.
  intros H. simpl. unfold run_step at 1. rewrite H.
  unfold run_step. simpl.
  destruct (send_raises g (set_phase (Sending (join newline (Deduplicate (messages s))))
                             (set_messages [] s))
              (join newline (Deduplicate (messages s)))) as [e ->].
  exists e. reflexivity.
Qed.

(** C4.  The send step of line 75 raises for every sender and delivers
    nothing.  As the file is written: the name [Push] resolves to the
    function defined at line 81, which has replaced the transport imported
    at line 27; the argument [self.secrets_json_path] is evaluated before
    the call and the instance has no such attribute, so [AttributeError] is
    raised; and were the attribute there, the call would still fail, since
    the function of line 81 has no parameter of that name.  In whatever
    namespace the module runs, no step of [run] reaches the transport and
    the send step ends in an exception. *)
Theorem send_step_always_raises
    (g : Namespace) (s : Sender) (full_message : string) (n : nat) :
  send module_globals s full_message
  = ([], Raise (AttributeError "secrets_json_path"))
  ∧ run_step module_globals (set_phase (Sending full_message) s)
    = (set_phase (Finished (Raise (AttributeError "secrets_json_path"))) s, [])
  ∧ Sender_getattr s "secrets_json_path" = None
  ∧ resolve module_globals "Push" = Some (PFunction "Push")
  ∧ resolve (exec_bindings (take 9 toplevel_bindings)) "Push"
    = Some (PImported "push" "Push")
  ∧ ("secrets_json_path" ∉ Push_params)
  ∧ (∀ v, check_keywords Push_params [("secrets_json_path", v)]
          = Raise (TypeError "unexpected keyword argument secrets_json_path"))
  ∧ (∃ e, send g s full_message = ([], Raise e))
  ∧ transport_calls (snd (run g n s)) = [].
Proof.
  repeat split.
  - unfold Push_params. set_solver.
  - apply send_raises.
  - apply run_no_transport.
Qed.

(** C7.  A sender whose list is empty when its countdown expires: the flush
    and the send step that follows make no call to the transport, and the
    thread ends (it is no longer alive and takes no further step).  The
    code has no test for the empty list: the empty body is built and the
    send step is entered as for any other flush, and raises. *)
Theorem empty_flush_reaches_no_transport (g : Namespace) (s : Sender) :
  messages s = [] → phase s = Flushing →
  ∃ e, run g 2 s
       = (mkSender [] (counter s) (Finished (Raise e)), [EvFlush [] ""])
     ∧ transport_calls (snd (run g 2 s)) = []
     ∧ is_alive (fst (run g 2 s)) = false
     ∧ ∀ n, run g n (fst (run g 2 s)) = (fst (run g 2 s), []).
Proof.
  intros Hm Hp. destruct (run_from_flushing g s Hp) as [e He].
  rewrite Hm in He. exists e. rewrite He. simpl.
  repeat split. intros n. by apply (run_finished g n _ (Raise e)).
Qed.

Lemma empty_flush_reaches_no_transport_witness :
  ∃ e, run module_globals 2 (mkSender [] (PInt 0) Flushing)
       = (mkSender [] (PInt 0) (Finished (Raise e)), [EvFlush [] ""])
     ∧ transport_calls (snd (run module_globals 2 (mkSender [] (PInt 0) Flushing))) = []
     ∧ is_alive (fst (run module_globals 2 (mkSender [] (PInt 0) Flushing))) = false
     ∧ ∀ n, run module_globals n (fst (run module_globals 2 (mkSender [] (PInt 0) Flushing)))
            = (fst (run module_globals 2 (mkSender [] (PInt 0) Flushing)), []).
Proof.
  exact (empty_flush_reaches_no_transport module_globals
           (mkSender [] (PInt 0) Flushing) eq_refl eq_refl).
Defined.

(** C3.  An unclustered [Push]: what the code does.  With no cluster key,
    or an empty one, [Push] returns at once having done nothing: the world
    is unchanged, so nothing is buffered, and no call to the transport is
    made (the send of lines 105-121 is commented out). *)
Theorem unclustered_push_does_nothing
    (g : Namespace) (w : World) (message : string) (high_priority : pyobj) :
  Push g w message None high_priority = (w, Return tt)
  ∧ Push g w message (Some "") high_priority = (w, Return tt)
  ∧ transport_calls (log (fst (Push g w message None high_priority)))
    = transport_calls (log w).
Proof. repeat split. Qed.

(** ** The world around one thread *)

Lemma run_step_flushing g s :
  phase s = Flushing →
  run_step g s
  = (mkSender [] (counter s)
       (Sending (join newline (Deduplicate (messages s)))),
     [EvFlush (Deduplicate (messages s))
              (join newline (Deduplicate (messages s)))]).
Proof. intros H. unfold run_step. by rewrite H. Qed.

Lemma run_step_sending g s full_message :
  phase s = Sending full_message →
  ∃ e, run_step g s = (set_phase (Finished (Raise e)) s, []).
Proof.
  intros H. unfold run_step. rewrite H.
  destruct (send_raises g s full_message) as [e ->]. by exists e.
Qed.

Lemma act_tick g w i s :
  heap w !! i = Some s →
  act g w (Tick i)
  = mkWorld (CLUSTER_DICT w) (<[ i := fst (run_step g s) ]> (heap w))
            (log w ++ snd (run_step g s)).
Proof. intros H. simpl. rewrite H. by destruct (run_step g s). Qed.

Lemma act_tick_finished g w i s r :
  heap w !! i = Some s → phase s = Finished r → act g w (Tick i) = w.
Proof.
  intros H Hp. rewrite (act_tick g w i s H), (run_step_finished g s r Hp).
  simpl. rewrite app_nil_r, list_insert_id by done. by destruct w.
Qed.

(** C8.  A failing send.  Take any sender of the process whose countdown
    has expired.  Its next two steps clear its list and enter the send; the
    send raises; the thread ends with that exception.  The list stays
    empty (the bodies are in no list any more), no other sender and no
    registry entry is touched, nothing is created, and further steps of the
    ended thread change nothing: the bodies are not requeued and the send
    is not retried.  The end of the thread does not depend on the outcome
    of the send: whatever it is, the phase after the send step is
    [Finished]. *)
Theorem failed_send_drops_and_terminates
    (g : Namespace) (w : World) (i : nat) (s : Sender) :
  heap w !! i = Some s → phase s = Flushing →
  let w' := exec g w [Tick i; Tick i] in
  let entries := Deduplicate (messages s) in
  (∃ e, heap w' = <[ i := mkSender [] (counter s) (Finished (Raise e)) ]> (heap w))
  ∧ CLUSTER_DICT w' = CLUSTER_DICT w
  ∧ log w' = log w ++ [EvFlush entries (join newline entries)]
  ∧ (∀ n, exec g w' (repeat (Tick i) n) = w')
  ∧ (∀ s1 full_message, phase s1 = Sending full_message →
       phase (fst (run_step g s1)) = Finished (snd (send g s1 full_message))).
Proof.
  intros Hi Hp. cbv zeta.
  assert (i < length (heap w))%nat as Hlen by (by eapply lookup_lt_Some).
  change (exec g w [Tick i; Tick i]) with (act g (act g w (Tick i)) (Tick i)).
  rewrite (act_tick g w i s Hi), (run_step_flushing g s Hp).
  set (s1 := mkSender [] _ _).
  destruct (run_step_sending g s1 _ eq_refl) as [e He].
  erewrite act_tick; [|simpl; by apply list_lookup_insert_eq].
  rewrite He. simpl. rewrite list_insert_insert_eq, app_nil_r.
  split; [by exists e|]. split; [done|]. split; [done|]. split.
  - intros n. induction n as [|n IH]; [done|].
    unfold exec in *. cbn [repeat fold_left].
    rewrite (act_tick_finished g _ i (set_phase (Finished (Raise e)) s1) (Raise e));
      [exact IH| |reflexivity].
    simpl. by apply list_lookup_insert_eq.
  - intros s2 m H2. unfold run_step. rewrite H2. by destruct (send g s2 m).
Qed.

Lemma failed_send_drops_and_terminates_witness :
  let w := mkWorld {[ "k" := 0%nat ]} [mkSender ["a"; "a"; "b"] (PInt 0) Flushing] [] in
  let w' := exec module_globals w [Tick 0%nat; Tick 0%nat] in
  heap w' = [mkSender [] (PInt 0) (Finished (Raise (AttributeError "secrets_json_path")))]
  ∧ CLUSTER_DICT w' = CLUSTER_DICT w
  ∧ log w' = [EvFlush ["a"; "b"] ("a" +:+ newline +:+ "b")].
Proof.
  pose proof (failed_send_drops_and_terminates module_globals
                (mkWorld {[ "k" := 0%nat ]}
                   [mkSender ["a"; "a"; "b"] (PInt 0) Flushing] [])
                0%nat (mkSender ["a"; "a"; "b"] (PInt 0) Flushing)
                eq_refl eq_refl) as (_ & Hd & Hl & _).
  cbv zeta. split; [reflexivity|]. split; [exact Hd|exact Hl].
Defined.

(** ** [PushoverQueue.Push] *)

Lemma Push_ignores_high_priority g w message cluster_key hp hp' :
  Push g w message cluster_key hp = Push g w message cluster_key hp'.
Proof. reflexivity. Qed.

(** C10.  The public method: what the code does.  The call of line 175
    reaches the function of line 81 with [self.user_key] as the message
    body, [self.api_token] as the cluster key and [message] as
    [high_priority], which that function never reads.  So the result is the
    same for every message and every choice of the optional fields,
    [clustering_key] included.  With ["u"], ["t"] and the message
    ["hello"] under key ["k"]: as the file is written the call raises
    [NameError]; with [MAX_COUNTER] and [threading] bound it starts a timer
    registered under ["t"] that holds the body ["u"], and nothing is
    registered under ["k"]. *)
Theorem PushoverQueue_Push_drops_its_arguments
    (w : World) (self : PushoverQueue.t)
    (message message' : string) (opts opts' : PushoverQueue.Options) :
  PushoverQueue.Push module_globals w self message opts
  = Push module_globals w (PushoverQueue.user_key self)
      (Some (PushoverQueue.api_token self)) (PStr message)
  ∧ PushoverQueue.Push module_globals w self message opts
    = PushoverQueue.Push module_globals w self message' opts'
  ∧ PushoverQueue.Push (with_counter 15) w self message opts
    = PushoverQueue.Push (with_counter 15) w self message' opts'
  ∧ (let q := PushoverQueue.init "u" "t" 0 in
     let o := PushoverQueue.mkOptions PNone (Some "k") PNone PNone (PBool false)
                (PImported "push" "Priority.NORMAL")
                PNone PNone (PStr "title") PNone PNone PNone in
     PushoverQueue.Push module_globals empty_world q "hello" o
     = (empty_world, Raise (NameError "MAX_COUNTER"))
     ∧ PushoverQueue.Push (with_counter 15) empty_world q "hello" o
       = (mkWorld {[ "t" := 0%nat ]} [mkSender ["u"] (PInt 15) Counting] [],
          Return tt)
     ∧ ({[ "t" := 0%nat ]} : gmap string nat) !! "k" = None).
Proof. repeat split. Qed.

(** ** A body appended after the snapshot *)

Lemma flushed_app l1 l2 : flushed (l1 ++ l2) = flushed l1 ++ flushed l2.
Proof.
  induction l1 as [|[e m|a k] l1 IH]; simpl; [done| |done].
  by rewrite IH, app_assoc.
Qed.

Lemma run_step_messages g s x :
  x ∈ messages (fst (run_step g s)) → x ∈ messages s.
Proof.
  unfold run_step. destruct (phase s); simpl; try done.
  - pose proof (DecrementCounter_keeps s) as [Hm _].
    destruct (DecrementCounter s) as [s1 [c|e]]; simpl in *;
      [destruct (c >? 0)|]; simpl; by rewrite Hm.
  - intros H. by apply not_elem_of_nil in H.
  - by destruct (send g s full_message).
Qed.

Lemma run_step_flushed g s x :
  x ∈ flushed (snd (run_step g s)) →
  x ∈ messages s ∧ before_snapshot s = true.
Proof.
  unfold run_step, before_snapshot.
  destruct (phase s); simpl; try (intros H; by apply not_elem_of_nil in H).
  - destruct (DecrementCounter s) as [s1 [c|e]]; [destruct (c >? 0)|]; simpl;
      intros H; by apply not_elem_of_nil in H.
  - rewrite app_nil_r. intros H. split; [|done].
    by apply Deduplicate_from_elem in H as [? _].
  - destruct (send_raises g s full_message) as [e ->]. simpl.
    intros H. by apply not_elem_of_nil in H.
Qed.

(** What a call of [Push] can do to the world. *)
Lemma Push_world g w message cluster_key hp :
  let w' := fst (Push g w message cluster_key hp) in
  log w' = log w
  ∧ (heap w' = heap w
     ∨ (∃ i s, heap w !! i = Some s
               ∧ heap w' = <[ i := fst (EnqueueMessage g s message) ]> (heap w))
     ∨ (∃ c, heap w' = heap w ++ [mkSender [message] c Counting])).
Proof.
  cbv zeta. unfold Push.
  destruct cluster_key as [key|]; [|auto].
  destruct (negb (truthy (PStr key))); [auto|].
  destruct (global g "CLUSTER_DICT"); [|auto].
  destruct (live_sender w key) as [[i sender]|] eqn:Hl.
  - destruct (EnqueueMessage g sender message) as [s' r] eqn:He. simpl.
    split; [done|]. right. left. exists i, sender. rewrite He. simpl.
    split; [|done]. unfold live_sender in Hl.
    destruct (CLUSTER_DICT w !! key); [|done].
    destruct (heap w !! n) eqn:Hn; [|done].
    destruct (is_alive s); [|done]. by injection Hl as -> ->.
  - destruct (global g "Sender"); [|auto].
    unfold Sender_init.
    destruct (resolve g "MAX_COUNTER") as [c|]; [|auto].
    destruct (resolve g "threading") as [m|]; [|auto].
    destruct (is_module "threading" m); [|auto].
    simpl. split; [done|]. right. right. by exists c.
Qed.

Lemma act_keeps_stranded g b w a :
  pushes b a = false → stranded b w → b ∉ flushed (log w) →
  stranded b (act g w a) ∧ b ∉ flushed (log (act g w a)).
Proof.
  intros Ha Hs Hl. destruct a as [i|m k].
  - destruct (heap w !! i) as [s|] eqn:Hi;
      [|simpl; rewrite Hi; by split].
    rewrite (act_tick g w i s Hi). simpl. split.
    + intros j s2 Hj Hb. simpl in Hj.
      destruct (decide (i = j)) as [<-|Hne].
      * rewrite list_lookup_insert_eq in Hj by (by eapply lookup_lt_Some).
        injection Hj as <-.
        destruct (before_snapshot s) eqn:Hbs.
        -- apply run_step_messages in Hb. specialize (Hs i s Hi Hb). congruence.
        -- by apply (apply_op_after_snapshot g s OpTick).
      * rewrite list_lookup_insert_ne in Hj by done. by eapply Hs.
    + rewrite flushed_app, elem_of_app. intros [H|H]; [done|].
      apply run_step_flushed in H as [Hb Hbs].
      specialize (Hs i s Hi Hb). congruence.
  - simpl in Ha. apply String.eqb_neq in Ha. simpl.
    destruct (Push_world g w m k (PBool false)) as [Hlog Hheap].
    rewrite Hlog. split; [|done].
    intros j s2 Hj Hb.
    destruct Hheap as [Hh|[(i & s & Hi & Hh)|[c Hh]]]; rewrite Hh in Hj.
    + by eapply Hs.
    + destruct (decide (i = j)) as [<-|Hne].
      * rewrite list_lookup_insert_eq in Hj by (by eapply lookup_lt_Some).
        injection Hj as <-.
        rewrite EnqueueMessage_messages in Hb.
        apply elem_of_app in Hb as [Hb|Hb]; [|set_solver].
        unfold before_snapshot. rewrite EnqueueMessage_phase.
        by apply (Hs i s).
      * rewrite list_lookup_insert_ne in Hj by done. by eapply Hs.
    + apply lookup_app_Some in Hj as [Hj|[_ Hj]]; [by eapply Hs|].
      destruct (j - length (heap w))%nat; [|done].
      injection Hj as <-. simpl in Hb. set_solver.
Qed.

(** Once every sender that holds [b] is past its snapshot, no continuation
    flushes [b] unless [b] is pushed again. *)
Lemma stranded_never_flushed g b actions : ∀ w,
  forallb (fun a => negb (pushes b a)) actions = true →
  stranded b w → b ∉ flushed (log w) →
  b ∉ flushed (log (exec g w actions)).
Proof.
  induction actions as [|a actions IH]; intros w Hq Hs Hl; [done|].
  simpl in Hq. apply andb_prop in Hq as [Ha Hq].
  apply negb_true_iff in Ha.
  destruct (act_keeps_stranded g b w a Ha Hs Hl) as [Hs' Hl'].
  by apply IH.
Qed.

(** C5.  A push racing the flush: what the code does.  With [MAX_COUNTER]
    bound to 15 and [threading] bound, push ["a"] under key ["k"] and let
    the thread count down and take its snapshot (sixteen steps).  The
    thread is then still alive, so a push of ["b"] under ["k"] finds the
    sender alive and appends ["b"] to the list the snapshot has just
    emptied, returning normally.  The thread's next step is the send; it
    ends the thread.  ["b"] now sits in the list of an ended sender: it is
    in no flush, and no continuation of the run flushes it unless ["b"] is
    pushed again. *)
Theorem push_after_snapshot_is_lost :
  let g := with_counter 15 in
  let w1 := exec g empty_world
              (CallPush "a" (Some "k") :: repeat (Tick 0%nat) 16) in
  let w2 := exec g w1 [CallPush "b" (Some "k"); Tick 0%nat] in
  heap w1 = [mkSender [] (PInt 0) (Sending "a")]
  ∧ log w1 = [EvFlush ["a"] "a"]
  ∧ Push g w1 "b" (Some "k") (PBool false)
    = (mkWorld (CLUSTER_DICT w1) [mkSender ["b"] (PInt 15) (Sending "a")]
         (log w1),
       Return tt)
  ∧ heap w2 = [mkSender ["b"] (PInt 15)
                 (Finished (Raise (AttributeError "secrets_json_path")))]
  ∧ flushed (log w2) = ["a"]
  ∧ (∀ actions, forallb (fun a => negb (pushes "b" a)) actions = true →
                "b" ∉ flushed (log (exec g w2 actions))).
Proof.
  intros g w1 w2.
  assert (heap w2
          = [mkSender ["b"] (PInt 15)
               (Finished (Raise (AttributeError "secrets_json_path")))]) as Hh
      by (vm_compute; reflexivity).
  assert (flushed (log w2) = ["a"]) as Hf by (vm_compute; reflexivity).
  split; [vm_compute; reflexivity|].
  split; [vm_compute; reflexivity|].
  split; [vm_compute; reflexivity|].
  split; [exact Hh|]. split; [exact Hf|].
  intros actions Hq. apply stranded_never_flushed.
  - exact Hq.
  - intros j s Hj Hb. rewrite Hh in Hj.
    destruct j as [|j]; [|done]. injection Hj as <-. reflexivity.
  - rewrite Hf. intros Hb.
    apply elem_of_cons in Hb as [Hb|Hb]; [discriminate Hb|].
    by apply not_elem_of_nil in Hb.
Qed.

(** * Further properties of the module *)

(** ** [Deduplicate], lines 35-40 *)

Lemma Deduplicate_from_fresh seen items :
  NoDup items → (∀ x, x ∈ items → x ∉ seen) →
  Deduplicate_from seen items = items.
Proof.
  revert seen. induction items as [|y l IH]; intros seen Hnd Hs; [done|].
  apply NoDup_cons in Hnd as [Hy Hnd]. simpl.
  destruct (decide (y ∈ seen)) as [Hin|_].
  - exfalso. apply (Hs y); [left|done].
  - f_equal. apply IH; [done|].
    intros x Hx. specialize (Hs x (list_elem_of_further _ _ _ Hx)).
    assert (x ≠ y) by (intros ->; done). set_solver.
Qed.

(** X1.  A list without repeats comes out of [Deduplicate] unchanged. *)
Theorem Deduplicate_NoDup_id (items : list string) :
  NoDup items → Deduplicate items = items.
Proof.
  intros H. apply Deduplicate_from_fresh; [done|]. intros x _. set_solver.
Qed.

Lemma Deduplicate_NoDup_id_witness :
  Deduplicate ["x"; "y"; "z"] = ["x"; "y"; "z"].
Proof.
  apply (Deduplicate_NoDup_id ["x"; "y"; "z"]).
  apply (bool_decide_unpack _). vm_compute. exact I.
Defined.

(** X2.  [Deduplicate] is idempotent: deduplicating what it yielded changes
    nothing. *)
Theorem Deduplicate_idempotent (items : list string) :
  Deduplicate (Deduplicate items) = Deduplicate items.
Proof.
  apply Deduplicate_from_fresh; [apply Deduplicate_from_NoDup|].
  intros x _. set_solver.
Qed.

(** X3.  What [Deduplicate] yields is the input with some items left out:
    nothing is added or reordered, so it is never longer than the input; the
    empty input yields nothing. *)
Theorem Deduplicate_sublist (items : list string) :
  Deduplicate items `sublist_of` items
  ∧ (length (Deduplicate items) ≤ length items)%nat
  ∧ Deduplicate [] = [].
Proof.
  assert (∀ seen, Deduplicate_from seen items `sublist_of` items) as H.
  { induction items as [|y l IH]; intros seen; simpl; [constructor|].
    destruct (decide (y ∈ seen)).
    - apply sublist_cons, IH.
    - apply sublist_skip, IH. }
  split; [apply H|]. split; [|done].
  apply sublist_length, H.
Qed.

Lemma Deduplicate_from_union s1 s2 items :
  Deduplicate_from (s1 ∪ s2) items
  = filter (λ x, x ∉ s1) (Deduplicate_from s2 items).
Proof.
  revert s2. induction items as [|y l IH]; intros s2; simpl; [done|].
  destruct (decide (y ∈ s2)) as [H2|H2].
  - destruct (decide (y ∈ s1 ∪ s2)) as [_|Hn]; [apply IH|set_solver].
  - rewrite filter_cons. destruct (decide (y ∉ s1)) as [H1|H1].
    + destruct (decide (y ∈ s1 ∪ s2)) as [Hn|_]; [set_solver|].
      f_equal. rewrite <- IH. f_equal. set_solver.
    + destruct (decide (y ∈ s1 ∪ s2)) as [_|Hn].
      * rewrite <- IH. f_equal. apply dec_stable in H1. set_solver.
      * apply dec_stable in H1. set_solver.
Qed.

Lemma Deduplicate_from_app seen l1 l2 :
  Deduplicate_from seen (l1 ++ l2)
  = Deduplicate_from seen l1 ++ Deduplicate_from (list_to_set l1 ∪ seen) l2.
Proof.
  revert seen. induction l1 as [|y l IH]; intros seen; simpl.
  - f_equal. set_solver.
  - destruct (decide (y ∈ seen)).
    + rewrite IH. f_equal. f_equal. set_solver.
    + simpl. f_equal. rewrite IH. f_equal. f_equal. set_solver.
Qed.

(** X4.  Two batches flushed together: the entries of the first batch,
    followed by those entries of the second batch that the first batch does
    not contain. *)
Theorem Deduplicate_app (l1 l2 : list string) :
  Deduplicate (l1 ++ l2)
  = Deduplicate l1 ++ filter (λ x, x ∉ l1) (Deduplicate l2).
Proof.
  unfold Deduplicate. rewrite Deduplicate_from_app. f_equal.
  rewrite Deduplicate_from_union. apply list_filter_iff.
  intros x. by rewrite elem_of_list_to_set.
Qed.

(** X5.  A list that holds one body any number of times is flushed as that
    body alone: one entry, no separator. *)
Theorem repeated_body_flushes_once (message : string) (n : nat) :
  Deduplicate (repeat message (S n)) = [message]
  ∧ join newline (Deduplicate (repeat message (S n))) = message.
Proof.
  assert (∀ seen : gset string, message ∈ seen →
            Deduplicate_from seen (repeat message n) = []) as Hseen.
  { induction n as [|n IH]; intros seen Hin; simpl; [done|].
    destruct (decide (message ∈ seen)); [by apply IH|done]. }
  assert (Deduplicate (repeat message (S n)) = [message]) as H.
  { unfold Deduplicate. simpl.
    destruct (decide (message ∈ (∅ : gset string))); [set_solver|].
    f_equal. apply Hseen. set_solver. }
  split; [done|]. by rewrite H.
Qed.

(** ** [Sender.run] undisturbed, lines 62-75 *)

Lemma run_app g a b s :
  run g (a + b) s
  = (fst (run g b (fst (run g a s))),
     snd (run g a s) ++ snd (run g b (fst (run g a s)))).
Proof.
  revert s. induction a as [|a IH]; intros s; simpl.
  - by destruct (run g b s).
  - destruct (run_step g s) as [s1 e1]. rewrite IH.
    destruct (run g a s1) as [s2 e2]. simpl.
    by rewrite app_assoc.
Qed.

Lemma run_counting g n : ∀ s c,
  phase s = Counting → counter s = PInt c → Z.of_nat n < c →
  run g n s = (mkSender (messages s) (PInt (c - Z.of_nat n)) Counting, []).
Proof.
  induction n as [|n IH]; intros s c Hp Hc Hn.
  - simpl. destruct s; simpl in *. subst. do 3 f_equal. lia.
  - simpl. rewrite (run_step_counting g s c Hp Hc).
    assert ((c - 1 >? 0) = true) as -> by lia.
    rewrite (IH _ (c - 1)); simpl; [|done|done|lia].
    do 3 f_equal. lia.
Qed.

Lemma run_from_flushing_outcome g s :
  phase s = Flushing →
  let body := join newline (Deduplicate (messages s)) in
  run g 2 s
  = (mkSender [] (counter s)
       (Finished (snd (send g (mkSender [] (counter s) (Sending body)) body))),
     [EvFlush (Deduplicate (messages s)) body]).
Proof.
  intros H. cbv zeta. simpl. rewrite (run_step_flushing g s H).
  unfold run_step. simpl.
  destruct (send_raises g
              (mkSender [] (counter s)
                 (Sending (join newline (Deduplicate (messages s)))))
              (join newline (Deduplicate (messages s)))) as [e ->].
  reflexivity.
Qed.

Lemma run_to_end (g : Namespace) (s : Sender) (c : Z) :
  phase s = Counting → counter s = PInt c →
  run g (Z.to_nat (Z.max 1 c) + 2) s
  = (mkSender [] (PInt (Z.min (c - 1) 0))
       (Finished
          (snd (send g
                  (mkSender [] (PInt (Z.min (c - 1) 0))
                     (Sending (join newline (Deduplicate (messages s)))))
                  (join newline (Deduplicate (messages s)))))),
     [EvFlush (Deduplicate (messages s))
        (join newline (Deduplicate (messages s)))]).
Proof.
  intros Hp Hc.
  replace (Z.to_nat (Z.max 1 c) + 2)%nat
    with (Z.to_nat (Z.max 1 c - 1) + (1 + 2))%nat by lia.
  assert (run g (Z.to_nat (Z.max 1 c - 1)) s
          = (mkSender (messages s)
               (PInt (c - Z.of_nat (Z.to_nat (Z.max 1 c - 1)))) Counting, []))
    as H1.
  { destruct (Z_le_gt_dec c 1).
    - replace (Z.to_nat (Z.max 1 c - 1)) with 0%nat by lia.
      simpl. destruct s; simpl in *. subst. do 3 f_equal. lia.
    - apply run_counting; [done|done|lia]. }
  rewrite run_app, H1. cbn [fst snd app].
  set (s1 := mkSender _ _ Counting).
  change (run g (1 + 2) s1)
    with (let (a, e1) := run_step g s1 in
          let (b, e2) := run g 2 a in (b, e1 ++ e2)).
  rewrite (run_step_counting g s1 _ eq_refl eq_refl).
  assert ((c - Z.of_nat (Z.to_nat (Z.max 1 c - 1)) - 1 >? 0) = false)
    as -> by (rewrite Z.gtb_ltb; apply Z.ltb_ge; lia).
  rewrite run_from_flushing_outcome by done. subst s1. cbn.
  replace (c - Z.of_nat (Z.to_nat (Z.max 1 c - 1)) - 1)
    with (Z.min (c - 1) 0) by lia.
  reflexivity.
Qed.

(** X6.  A started sender that no enqueue disturbs always comes to its end.
    With an integer countdown [c] it stays in its loop for [max 1 c - 1]
    ticks, leaves it at the next one -- at the very first tick when [c] is
    1, zero or negative -- then flushes once and ends in the send: in all
    [max 1 c + 2] steps, one flush event, the list empty. *)
Theorem undisturbed_run_ends (g : Namespace) (s : Sender) (c : Z) :
  phase s = Counting → counter s = PInt c →
  let entries := Deduplicate (messages s) in
  let body := join newline entries in
  let last := Z.min (c - 1) 0 in
  run g (Z.to_nat (Z.max 1 c) + 2) s
  = (mkSender [] (PInt last)
       (Finished (snd (send g (mkSender [] (PInt last) (Sending body)) body))),
     [EvFlush entries body])
  ∧ (∀ n, (n < Z.to_nat (Z.max 1 c))%nat → phase (fst (run g n s)) = Counting).
Proof.
  intros Hp Hc. cbv zeta. split; [by apply run_to_end|].
  intros [|n] Hn; [done|].
  rewrite (run_counting g (S n) s c); [done|done|done|lia].
Qed.

Lemma undisturbed_run_ends_witness :
  run module_globals 5 (mkSender ["a"; "b"; "a"] (PInt 3) Counting)
  = (mkSender [] (PInt 0)
       (Finished (Raise (AttributeError "secrets_json_path"))),
     [EvFlush ["a"; "b"] ("a" +:+ newline +:+ "b")]).
Proof.
  exact (proj1 (undisturbed_run_ends module_globals
                  (mkSender ["a"; "b"; "a"] (PInt 3) Counting) 3
                  eq_refl eq_refl)).
Defined.

Lemma exec_ticks g i n : ∀ w s,
  heap w !! i = Some s →
  exec g w (repeat (Tick i) n)
  = mkWorld (CLUSTER_DICT w) (<[ i := fst (run g n s) ]> (heap w))
            (log w ++ snd (run g n s)).
Proof.
  induction n as [|n IH]; intros w s Hi.
  - simpl. rewrite app_nil_r, list_insert_id by done. by destruct w.
  - assert (i < length (heap w))%nat as Hlen by (by eapply lookup_lt_Some).
    unfold exec in *. cbn [repeat fold_left].
    rewrite (act_tick g w i s Hi).
    rewrite (IH _ (fst (run_step g s)))
      by (simpl; by apply list_lookup_insert_eq).
    simpl. destruct (run_step g s) as [s1 e1]. simpl.
    destruct (run g n s1) as [s2 e2]. simpl.
    by rewrite list_insert_insert_eq, app_assoc.
Qed.

(** X7.  One push, end to end, with [MAX_COUNTER] bound to [q >= 1] and
    [threading] bound.  A first [Push] under a non-empty key starts a timer;
    [q] ticks later it leaves its loop, and after two more steps the world
    holds one flush, whose body is the message itself, a registry entry for
    the key, and the ended sender with an empty list.  The send has raised:
    nothing was delivered. *)
Theorem single_push_end_to_end (q : Z) (message key : string) :
  1 ≤ q → key ≠ "" →
  exec (with_counter q) empty_world
    (CallPush message (Some key) :: repeat (Tick 0%nat) (Z.to_nat q + 2))
  = mkWorld {[ key := 0%nat ]}
      [mkSender [] (PInt 0)
         (Finished (Raise (AttributeError "secrets_json_path")))]
      [EvFlush [message] message].
Proof.
  intros Hq Hk. unfold exec. cbn [fold_left].
  assert (act (with_counter q) empty_world (CallPush message (Some key))
          = mkWorld {[ key := 0%nat ]} [mkSender [message] (PInt q) Counting] [])
    as ->.
  { simpl. unfold Push. simpl.
    apply String.eqb_neq in Hk. rewrite Hk. simpl.
    unfold live_sender. simpl. rewrite lookup_empty. simpl.
    by rewrite insert_empty. }
  fold (exec (with_counter q)
          (mkWorld {[ key := 0%nat ]} [mkSender [message] (PInt q) Counting] [])
          (repeat (Tick 0%nat) (Z.to_nat q + 2))).
  rewrite (exec_ticks _ _ _ _ (mkSender [message] (PInt q) Counting)) by done.
  replace (Z.to_nat q) with (Z.to_nat (Z.max 1 q)) by lia.
  rewrite (run_to_end (with_counter q)
             (mkSender [message] (PInt q) Counting) q eq_refl eq_refl).
  simpl. replace (Z.min (q - 1) 0) with 0 by lia.
  unfold Deduplicate. simpl.
  destruct (decide (message ∈ (∅ : gset string))); [set_solver|].
  reflexivity.
Qed.

Lemma single_push_end_to_end_witness :
  exec (with_counter 3) empty_world
    (CallPush "build failed" (Some "ci") :: repeat (Tick 0%nat) 5)
  = mkWorld {[ "ci" := 0%nat ]}
      [mkSender [] (PInt 0)
         (Finished (Raise (AttributeError "secrets_json_path")))]
      [EvFlush ["build failed"] "build failed"].
Proof.
  apply (single_push_end_to_end 3 "build failed" "ci"); [lia|discriminate].
Defined.

(** ** The registry under [Push] and thread steps, lines 78-102 *)

Lemma live_sender_Some w key i s :
  live_sender w key = Some (i, s) →
  CLUSTER_DICT w !! key = Some i ∧ heap w !! i = Some s ∧ is_alive s = true.
Proof.
  unfold live_sender. destruct (CLUSTER_DICT w !! key) as [j|]; [|done].
  destruct (heap w !! j) as [s'|] eqn:Hj; [|done].
  destruct (is_alive s') eqn:Ha; [|done].
  intros [= <- <-]. done.
Qed.

(** The three things a call of [Push] can do to the world. *)
Lemma Push_cases g w message cluster_key hp :
  let w' := fst (Push g w message cluster_key hp) in
  w' = w
  ∨ (∃ key i s,
       cluster_key = Some key ∧ CLUSTER_DICT w !! key = Some i
       ∧ heap w !! i = Some s ∧ is_alive s = true
       ∧ w' = mkWorld (CLUSTER_DICT w)
                (<[ i := fst (EnqueueMessage g s message) ]> (heap w)) (log w))
  ∨ (∃ key c,
       cluster_key = Some key
       ∧ w' = mkWorld (<[ key := length (heap w) ]> (CLUSTER_DICT w))
                (heap w ++ [mkSender [message] c Counting]) (log w)).
Proof.
  cbv zeta. unfold Push.
  destruct cluster_key as [key|]; [|auto].
  destruct (negb (truthy (PStr key))); [auto|].
  destruct (global g "CLUSTER_DICT"); [|auto].
  destruct (live_sender w key) as [[i sender]|] eqn:Hl.
  - apply live_sender_Some in Hl as (Hk & Hi & Ha).
    right. left. exists key, i, sender.
    destruct (EnqueueMessage g sender message) as [s' r]. simpl. auto.
  - destruct (global g "Sender"); [|auto].
    unfold Sender_init.
    destruct (resolve g "MAX_COUNTER") as [c|]; [|auto].
    destruct (resolve g "threading") as [m|]; [|auto].
    destruct (is_module "threading" m); [|auto].
    right. right. exists key, c. simpl. auto.
Qed.

Lemma registry_ok_act g w a : registry_ok w → registry_ok (act g w a).
Proof.
  intros [Hr Hi]. destruct a as [i|m k].
  - destruct (heap w !! i) as [s|] eqn:E; [|simpl; rewrite E; by split].
    rewrite (act_tick g w i s E). split; simpl.
    + intros k j Hk. rewrite length_insert. by eapply Hr.
    + exact Hi.
  - simpl.
    destruct (Push_cases g w m k (PBool false))
      as [->|[(key & i & s & _ & _ & _ & _ & ->)|(key & c & _ & ->)]].
    + by split.
    + split; simpl; [|exact Hi].
      intros k' j Hk. rewrite length_insert. by eapply Hr.
    + split; simpl.
      * intros k' j Hk. rewrite length_app. simpl.
        destruct (decide (key = k')) as [->|Hne].
        -- rewrite lookup_insert_eq in Hk. injection Hk as <-. lia.
        -- rewrite lookup_insert_ne in Hk by done.
           specialize (Hr _ _ Hk). lia.
      * intros k1 k2 j H1 H2.
        destruct (decide (key = k1)) as [<-|Hn1];
          destruct (decide (key = k2)) as [<-|Hn2]; [done| | |].
        -- rewrite lookup_insert_eq in H1. injection H1 as <-.
           rewrite lookup_insert_ne in H2 by done.
           specialize (Hr _ _ H2). lia.
        -- rewrite lookup_insert_eq in H2. injection H2 as <-.
           rewrite lookup_insert_ne in H1 by done.
           specialize (Hr _ _ H1). lia.
        -- rewrite lookup_insert_ne in H1, H2 by done. by eapply Hi.
Qed.

(** X8.  Whatever pushes and thread steps happen, from the empty registry,
    and in whatever namespace: every registry entry refers to a sender that
    exists, and no sender is registered under two keys. *)
Theorem registry_stays_ok (g : Namespace) (actions : list Action) :
  registry_ok (exec g empty_world actions).
Proof.
  assert (∀ w, registry_ok w → registry_ok (exec g w actions)) as H.
  { induction actions as [|a l IH]; intros w Hw; [done|].
    apply IH, registry_ok_act, Hw. }
  apply H. split; simpl; intros k; intros; by rewrite lookup_empty in *.
Qed.

(** X9.  Isolation of keys.  In a world whose registry is in order, a
    [Push] under one key leaves every other key's entry and the sender
    behind it exactly as they were; and a step of one sender's thread
    changes no other sender and no registry entry. *)
Theorem other_keys_untouched
    (g : Namespace) (w : World) (message key key' : string) (hp : pyobj)
    (j i : nat) :
  registry_ok w → key ≠ key' → CLUSTER_DICT w !! key' = Some j →
  let w' := fst (Push g w message (Some key) hp) in
  CLUSTER_DICT w' !! key' = Some j
  ∧ heap w' !! j = heap w !! j
  ∧ CLUSTER_DICT (act g w (Tick i)) = CLUSTER_DICT w
  ∧ (i ≠ j → heap (act g w (Tick i)) !! j = heap w !! j).
Proof.
  intros [Hr Hi] Hne Hj. cbv zeta. split; [|split].
  - destruct (Push_cases g w message (Some key) hp)
      as [->|[(k & i' & s & _ & _ & _ & _ & ->)|(k & c & [= <-] & ->)]];
      simpl; [done|done|]. by rewrite lookup_insert_ne.
  - destruct (Push_cases g w message (Some key) hp)
      as [->|[(k & i' & s & [= <-] & Hk & _ & _ & ->)|(k & c & _ & ->)]];
      simpl; [done| |].
    + apply list_lookup_insert_ne. intros <-. apply Hne. by eapply Hi.
    + apply lookup_app_l. by eapply Hr.
  - destruct (heap w !! i) as [s|] eqn:E.
    + rewrite (act_tick g w i s E). simpl. split; [done|].
      intros Hij. by apply list_lookup_insert_ne.
    + simpl. rewrite E. done.
Qed.

Lemma other_keys_untouched_witness :
  let w := mkWorld {[ "a" := 0%nat ]} [mkSender ["x"] (PInt 4) Counting] [] in
  let w' := fst (Push (with_counter 15) w "y" (Some "b") (PBool false)) in
  CLUSTER_DICT w' !! "a" = Some 0%nat
  ∧ heap w' !! 0%nat = Some (mkSender ["x"] (PInt 4) Counting).
Proof.
  assert (registry_ok
            (mkWorld {[ "a" := 0%nat ]} [mkSender ["x"] (PInt 4) Counting] []))
    as Hok.
  { split; simpl.
    - intros k i Hk. apply lookup_singleton_Some in Hk as [_ <-]. lia.
    - intros k k' i H1 H2.
      apply lookup_singleton_Some in H1 as [<- _].
      apply lookup_singleton_Some in H2 as [<- _]. done. }
  pose proof (other_keys_untouched (with_counter 15)
                (mkWorld {[ "a" := 0%nat ]} [mkSender ["x"] (PInt 4) Counting] [])
                "y" "b" "a" (PBool false) 0%nat 0%nat Hok
                ltac:(discriminate) eq_refl) as (H1 & H2 & _).
  cbv zeta. split; [exact H1|exact H2].
Defined.

(** X10.  Nothing is ever delivered.  Through any sequence of pushes and
    thread steps, from any world and in any namespace, no call reaches the
    transport: the transport calls in the log are those it started with. *)
Theorem nothing_reaches_the_transport
    (g : Namespace) (w : World) (actions : list Action) :
  transport_calls (log (exec g w actions)) = transport_calls (log w).
Proof.
  revert w. induction actions as [|a l IH]; intros w; [done|].
  change (exec g w (a :: l)) with (exec g (act g w a) l). rewrite IH.
  destruct a as [i|m k].
  - destruct (heap w !! i) as [s|] eqn:E; [|simpl; by rewrite E].
    rewrite (act_tick g w i s E). simpl.
    by rewrite transport_calls_app, run_step_no_transport, app_nil_r.
  - simpl. destruct (Push_world g w m k (PBool false)) as [-> _]. done.
Qed.

(** X11.  The registry only grows.  No push and no thread step removes a
    registry entry or a sender object: the keys registered before are still
    registered, and there are at least as many senders. *)
Theorem registry_only_grows
    (g : Namespace) (w : World) (actions : list Action) :
  dom (CLUSTER_DICT w) ⊆ dom (CLUSTER_DICT (exec g w actions))
  ∧ (length (heap w) ≤ length (heap (exec g w actions)))%nat.
Proof.
  revert w. induction actions as [|a l IH]; intros w; [done|].
  change (exec g w (a :: l)) with (exec g (act g w a) l).
  destruct (IH (act g w a)) as [Hd Hl].
  assert (dom (CLUSTER_DICT w) ⊆ dom (CLUSTER_DICT (act g w a))
          ∧ (length (heap w) ≤ length (heap (act g w a)))%nat) as [Hd1 Hl1].
  { destruct a as [i|m k].
    - destruct (heap w !! i) as [s|] eqn:E; [|simpl; by rewrite E].
      rewrite (act_tick g w i s E). simpl. by rewrite length_insert.
    - simpl.
      destruct (Push_cases g w m k (PBool false))
        as [->|[(key & i & s & _ & _ & _ & _ & ->)|(key & c & _ & ->)]];
        simpl; [done| |].
      + by rewrite length_insert.
      + rewrite dom_insert_L, length_app. simpl. split; [set_solver|lia]. }
  split; [set_solver|lia].
Qed.

(** ** What a clustered [Push] does, lines 88-102 *)

(** X12.  With [MAX_COUNTER] bound to [q] and [threading] bound, a [Push]
    under a key that has no live sender -- never seen, or its thread has
    ended -- starts a new sender that holds the pushed message only, with
    the countdown at [q], and registers it under the key.  The senders that
    existed, an ended one of that key among them, stay as they were:
    nothing they still hold is carried over. *)
Theorem push_starts_a_fresh_sender
    (q : Z) (w : World) (message key : string) (hp : pyobj) :
  key ≠ "" → live_sender w key = None →
  let w' := fst (Push (with_counter q) w message (Some key) hp) in
  snd (Push (with_counter q) w message (Some key) hp) = Return tt
  ∧ CLUSTER_DICT w' !! key = Some (length (heap w))
  ∧ heap w' = heap w ++ [mkSender [message] (PInt q) Counting]
  ∧ (∀ i s, heap w !! i = Some s → heap w' !! i = Some s)
  ∧ log w' = log w.
Proof.
  intros Hk Hl. cbv zeta. unfold Push. simpl.
  apply String.eqb_neq in Hk. rewrite Hk, Hl. simpl.
  rewrite lookup_insert_eq. repeat split.
  intros i s Hi. by apply lookup_app_l_Some.
Qed.

Lemma push_starts_a_fresh_sender_witness :
  let ended := mkSender ["b"] (PInt 15)
                 (Finished (Raise (AttributeError "secrets_json_path"))) in
  let w := mkWorld {[ "k" := 0%nat ]} [ended] [EvFlush ["a"] "a"] in
  let w' := fst (Push (with_counter 15) w "c" (Some "k") (PBool false)) in
  CLUSTER_DICT w' !! "k" = Some 1%nat
  ∧ heap w' = [ended; mkSender ["c"] (PInt 15) Counting].
Proof.
  pose proof (push_starts_a_fresh_sender 15
                (mkWorld {[ "k" := 0%nat ]}
                   [mkSender ["b"] (PInt 15)
                      (Finished (Raise (AttributeError "secrets_json_path")))]
                   [EvFlush ["a"] "a"])
                "c" "k" (PBool false) ltac:(discriminate) eq_refl)
    as (_ & H1 & H2 & _).
  cbv zeta. split; [exact H1|exact H2].
Defined.

(** X13.  With [MAX_COUNTER] bound to [q], a [Push] under a key whose sender
    is alive adds the message at the end of that sender's list and puts its
    countdown back to [q], whatever it was; no sender is created and the
    registry is not written. *)
Theorem push_joins_the_live_sender
    (q : Z) (w : World) (message key : string) (hp : pyobj)
    (i : nat) (s : Sender) :
  key ≠ "" → live_sender w key = Some (i, s) →
  Push (with_counter q) w message (Some key) hp
  = (mkWorld (CLUSTER_DICT w)
       (<[ i := mkSender (messages s ++ [message]) (PInt q) (phase s) ]> (heap w))
       (log w),
     Return tt).
Proof.
  intros Hk Hl. unfold Push. simpl.
  apply String.eqb_neq in Hk. rewrite Hk, Hl. reflexivity.
Qed.

Lemma push_joins_the_live_sender_witness :
  Push (with_counter 15)
    (mkWorld {[ "k" := 0%nat ]} [mkSender ["a"] (PInt 2) Counting] [])
    "b" (Some "k") (PBool false)
  = (mkWorld {[ "k" := 0%nat ]} [mkSender ["a"; "b"] (PInt 15) Counting] [],
     Return tt).
Proof.
  exact (push_joins_the_live_sender 15
           (mkWorld {[ "k" := 0%nat ]} [mkSender ["a"] (PInt 2) Counting] [])
           "b" "k" (PBool false) 0%nat (mkSender ["a"] (PInt 2) Counting)
           ltac:(discriminate) eq_refl).
Defined.

Lemma Push_without_MAX_COUNTER g message key hp :
  resolve g "MAX_COUNTER" = None → key ≠ "" →
  ∃ name,
    Push g empty_world message (Some key) hp
    = (empty_world, Raise (NameError name))
    ∧ (is_Some (resolve g "CLUSTER_DICT") → is_Some (resolve g "Sender") →
       name = "MAX_COUNTER").
Proof.
  intros Hq Hk. unfold Push, global. simpl.
  apply String.eqb_neq in Hk. rewrite Hk. simpl.
  destruct (resolve g "CLUSTER_DICT") as [d|].
  - destruct (resolve g "Sender") as [c|].
    + unfold Sender_init. rewrite Hq. by exists "MAX_COUNTER".
    + exists "Sender". split; [done|]. intros _ [x Hx]. discriminate Hx.
  - exists "CLUSTER_DICT". split; [done|]. intros [x Hx]. discriminate Hx.
Qed.

Lemma exec_without_MAX_COUNTER g actions :
  resolve g "MAX_COUNTER" = None → exec g empty_world actions = empty_world.
Proof.
  intros Hq. induction actions as [|a l IH]; [done|].
  change (exec g empty_world (a :: l)) with (exec g (act g empty_world a) l).
  assert (act g empty_world a = empty_world) as ->; [|exact IH].
  destruct a as [i|m [k|]]; [done| |done].
  destruct (decide (k = "")) as [->|Hk]; [done|].
  change (act g empty_world (CallPush m (Some k)))
    with (fst (Push g empty_world m (Some k) (PBool false))).
  by destruct (Push_without_MAX_COUNTER g m k (PBool false) Hq Hk) as (n & -> & _).
Qed.

(** X14.  No timer without [MAX_COUNTER].  In a namespace that does not
    bind [MAX_COUNTER] -- the file with the missing [threading] added and
    nothing else, for one -- no sender is ever created: whatever pushes and
    thread steps are made from the empty registry, the registry and the
    senders stay empty, and a [Push] under a non-empty key then raises
    [NameError] and stores nothing.  Where [CLUSTER_DICT] and [Sender] are
    bound the name it reports is [MAX_COUNTER], read by the constructor at
    line 49. *)
Theorem no_timer_without_MAX_COUNTER
    (g : Namespace) (actions : list Action) (message key : string) (hp : pyobj) :
  resolve g "MAX_COUNTER" = None → key ≠ "" →
  exec g empty_world actions = empty_world
  ∧ ∃ name,
      Push g (exec g empty_world actions) message (Some key) hp
      = (empty_world, Raise (NameError name))
      ∧ (is_Some (resolve g "CLUSTER_DICT") → is_Some (resolve g "Sender") →
         name = "MAX_COUNTER").
Proof.
  intros Hq Hk. rewrite (exec_without_MAX_COUNTER g actions Hq).
  split; [done|]. by apply Push_without_MAX_COUNTER.
Qed.

Lemma no_timer_without_MAX_COUNTER_witness :
  exec with_threading empty_world
    [CallPush "a" (Some "k"); Tick 0%nat; CallPush "b" (Some "k")]
  = empty_world
  ∧ ∃ name,
      Push with_threading
        (exec with_threading empty_world
           [CallPush "a" (Some "k"); Tick 0%nat; CallPush "b" (Some "k")])
        "c" (Some "k") (PBool false)
      = (empty_world, Raise (NameError name))
      ∧ (is_Some (resolve with_threading "CLUSTER_DICT") →
         is_Some (resolve with_threading "Sender") → name = "MAX_COUNTER").
Proof.
  exact (no_timer_without_MAX_COUNTER with_threading
           [CallPush "a" (Some "k"); Tick 0%nat; CallPush "b" (Some "k")]
           "c" "k" (PBool false) eq_refl ltac:(discriminate)).
Defined.

(** ** The [PushoverQueue] thread, lines 128-156 *)

Lemma QueueThread_running_loops (o : QueueThread.t) (n : nat) :
  QueueThread.life o = QueueThread.Alive → QueueThread.IsRunning o = true →
  QueueThread.run_steps n o = o.
Proof.
  intros Hl Hr. induction n as [|n IH]; [done|].
  simpl. fold (QueueThread.run_steps n o). rewrite IH.
  unfold QueueThread.run_step. by rewrite Hl, Hr.
Qed.

Lemma QueueThread_ended_stays (o : QueueThread.t) (n : nat) :
  QueueThread.life o = QueueThread.Ended → QueueThread.run_steps n o = o.
Proof.
  intros Hl. induction n as [|n IH]; [done|].
  simpl. fold (QueueThread.run_steps n o). rewrite IH.
  unfold QueueThread.run_step. by rewrite Hl.
Qed.

(** X15.  The queue's thread.  After [Start] on a new object the thread
    loops for as long as nobody calls [Stop]: any number of tests of the
    loop condition leave it alive.  After [Stop] the next test ends it, and
    it stays ended.  The loop body is empty: [self.queue] is as it was
    created, empty, at every point. *)
Theorem queue_thread_runs_until_stopped
    (user_key api_token : string) (rate_limit : Z) (n m : nat) :
  let started := fst (QueueThread.Start
                        (QueueThread.new user_key api_token rate_limit)) in
  let stopped := QueueThread.Stop (QueueThread.run_steps n started) in
  snd (QueueThread.Start (QueueThread.new user_key api_token rate_limit))
  = QueueThread.Returned
  ∧ QueueThread.IsRunning (QueueThread.new user_key api_token rate_limit) = false
  ∧ QueueThread.life (QueueThread.run_steps n started) = QueueThread.Alive
  ∧ QueueThread.IsRunning (QueueThread.run_steps n started) = true
  ∧ QueueThread.life (QueueThread.run_steps (S m) stopped) = QueueThread.Ended
  ∧ QueueThread.IsRunning (QueueThread.run_steps (S m) stopped) = false
  ∧ QueueThread.queue (QueueThread.run_steps (S m) stopped) = ∅.
Proof.
  cbv zeta.
  set (started := fst (QueueThread.Start
                         (QueueThread.new user_key api_token rate_limit))).
  assert (QueueThread.run_steps n started = started) as ->
      by (by apply QueueThread_running_loops).
  assert (QueueThread.run_steps (S m) (QueueThread.Stop started)
          = QueueThread.mk (QueueThread.self (QueueThread.Stop started))
              ∅ QueueThread.Ended) as ->.
  { replace (S m) with (m + 1)%nat by lia.
    unfold QueueThread.run_steps. rewrite Nat.iter_add. simpl.
    fold (QueueThread.run_steps m
            (QueueThread.mk (QueueThread.self (QueueThread.Stop started))
               ∅ QueueThread.Ended)).
    by apply QueueThread_ended_stays. }
  repeat split.
Qed.

(** X16.  The queue cannot be restarted.  On an object whose thread has
    been started -- running still, or ended after a [Stop] -- [Start] sets
    the flag and then fails with [RuntimeError], since a thread object
    starts once.  After an ended thread this leaves [IsRunning()] true with
    no thread running, whatever happens next on the thread's side. *)
Theorem queue_thread_cannot_restart (o : QueueThread.t) (n : nat) :
  QueueThread.life o ≠ QueueThread.Unstarted →
  let o' := fst (QueueThread.Start o) in
  snd (QueueThread.Start o)
  = QueueThread.RuntimeError "threads can only be started once"
  ∧ QueueThread.IsRunning o' = true
  ∧ QueueThread.life o' = QueueThread.life o
  ∧ (QueueThread.life o = QueueThread.Ended →
     QueueThread.run_steps n o' = o'
     ∧ QueueThread.life (QueueThread.run_steps n o') = QueueThread.Ended).
Proof.
  intros Hl. cbv zeta. unfold QueueThread.Start, QueueThread.Thread_start.
  simpl. destruct (QueueThread.life o) eqn:E; [done| |]; simpl.
  - do 3 (split; [done|]). discriminate.
  - do 3 (split; [done|]). intros _.
    by rewrite QueueThread_ended_stays.
Qed.

Lemma queue_thread_cannot_restart_witness :
  let o := QueueThread.run_steps 1
             (QueueThread.Stop
                (fst (QueueThread.Start (QueueThread.new "u" "t" 0)))) in
  QueueThread.life o = QueueThread.Ended
  ∧ snd (QueueThread.Start o)
    = QueueThread.RuntimeError "threads can only be started once"
  ∧ QueueThread.IsRunning (fst (QueueThread.Start o)) = true.
Proof.
  pose proof (queue_thread_cannot_restart
                (QueueThread.run_steps 1
                   (QueueThread.Stop
                      (fst (QueueThread.Start (QueueThread.new "u" "t" 0)))))
                0 ltac:(discriminate)) as (H1 & H2 & _).
  cbv zeta. split; [reflexivity|]. split; [exact H1|exact H2].
Defined.

(** ** Executing the file, lines 19-128 *)

(** X17.  What executing the file does.  Its statements bind the names of
    [toplevel_bindings], in that order.  Where [threading] is not bound
    beforehand -- a plain [import] -- the execution stops at line 43 with
    [NameError]: the names bound so far are those of lines 19-35, so
    [Sender], [CLUSTER_DICT] and [PushoverQueue] are unbound and [Push] is
    still the imported transport.  Where [threading] is bound beforehand
    every statement runs, [Push] ends up as the [def] of line 81, and
    [MAX_COUNTER] is bound only if it was beforehand. *)
Theorem import_stops_at_line_43 (preset : Namespace) :
  map (λ st, (target st, value st)) toplevel_statements = toplevel_bindings
  ∧ import_module preset
    = match resolve preset "threading" with
      | Some _ => (module_globals ++ preset, Return tt)
      | None => (exec_bindings (take 13 toplevel_bindings) ++ preset,
                 Raise (NameError "threading"))
      end
  ∧ (∀ name, name ∈ ["Sender"; "CLUSTER_DICT"; "PushoverQueue"; "MAX_COUNTER"] →
       resolve (fst (import_module [])) name = None)
  ∧ resolve (fst (import_module [])) "Push" = Some (PImported "push" "Push")
  ∧ resolve (module_globals ++ preset) "Push" = Some (PFunction "Push")
  ∧ resolve (module_globals ++ preset) "MAX_COUNTER"
    = resolve preset "MAX_COUNTER".
Proof.
  split; [reflexivity|]. split; [|split; [|repeat split]].
  - unfold import_module. simpl.
    destruct (resolve preset "threading") as [v|]; reflexivity.
  - intros name Hn.
    repeat (apply elem_of_cons in Hn as [->|Hn]; [reflexivity|]).
    by apply not_elem_of_nil in Hn.
Qed.
